(** * SRM Canteen menu display: the menu data pipeline of [App.tsx]

    A shallow embedding of the logic-bearing part of
    [src/SRM_Canteen_Menu/src/App.tsx]: [parseCSVToJSON], the refresh cycle
    [fetchMenuData], [groupByMealType], the [sortedMealTypes] computation and
    the conditional at the root of the rendered tree.

    JavaScript values are modelled as the code uses them:
    - a string is its sequence of UTF-16 code units ([list N]);
    - a value that may be [undefined] (an array read past the end, an absent
      property) is an [option];
    - a computation that may throw returns a [completion];
    - the object literal [{}] used as a map by [groupByMealType] is an ordered
      list of own properties whose prototype is [Object.prototype];
    - React state is a record, and [fetchMenuData] is a computation in a small
      state-and-exception monad over it. *)

From Stdlib Require Import List NArith ZArith String Ascii Bool Arith Lia.
From Stdlib Require Import Permutation Sorted.
Import ListNotations.

Set Implicit Arguments.

(** ** JavaScript primitives used by the component *)

Module JS.

(** A string value: its UTF-16 code units. *)
Definition code_unit := N.
Definition jsstring := list code_unit.

(** An ASCII literal of the source as a string value. *)
Definition str (s : string) : jsstring :=
  List.map N_of_ascii (list_ascii_of_string s).

Definition jsstring_eqb (a b : jsstring) : bool :=
  if list_eq_dec N.eq_dec a b then true else false.

(** [WhiteSpace] and [LineTerminator] code points of ECMAScript, the set
    that [String.prototype.trim] strips.  All of them lie in the basic
    plane, so each is one code unit. *)
Definition isWhiteSpace (c : code_unit) : bool :=
  ((9 <=? c) && (c <=? 13)          (* TAB LF VT FF CR *)
   || (c =? 32)                      (* SPACE *)
   || (c =? 160)                     (* NO-BREAK SPACE *)
   || (c =? 5760)                    (* OGHAM SPACE MARK *)
   || (8192 <=? c) && (c <=? 8202)   (* EN QUAD .. HAIR SPACE *)
   || (c =? 8232) || (c =? 8233)     (* LINE / PARAGRAPH SEPARATOR *)
   || (c =? 8239)                    (* NARROW NO-BREAK SPACE *)
   || (c =? 8287)                    (* MEDIUM MATHEMATICAL SPACE *)
   || (c =? 12288)                   (* IDEOGRAPHIC SPACE *)
   || (c =? 65279))%N.               (* ZERO WIDTH NO-BREAK SPACE *)

Fixpoint trimStart (s : jsstring) : jsstring :=
  match s with
  | c :: s' => if isWhiteSpace c then trimStart s' else s
  | [] => []
  end.

Definition trimEnd (s : jsstring) : jsstring :=
  rev (trimStart (rev s)).

(** [s.trim()] *)
Definition trim (s : jsstring) : jsstring := trimEnd (trimStart s).

(** [s.split(sep)] for a separator of one code unit and no limit: [cur]
    holds, reversed, the code units read since the last separator. *)
Fixpoint split_from (sep : code_unit) (cur : jsstring) (s : jsstring)
  : list jsstring :=
  match s with
  | [] => [rev cur]
  | c :: s' =>
      if (c =? sep)%N then rev cur :: split_from sep [] s'
      else split_from sep (c :: cur) s'
  end.

Definition split (sep : code_unit) (s : jsstring) : list jsstring :=
  split_from sep [] s.

Definition LF : code_unit := 10%N.      (* '\n' *)
Definition COMMA : code_unit := 44%N.   (* ',' *)

(** Values that can be thrown (or be the reason of a rejected promise). *)
Inductive exn : Type :=
| TypeError (msg : string)
| Error (msg : string)
| Rejected (cause : jsstring).

(** The completion of an evaluation: a value, or an exception. *)
Inductive completion (A : Type) : Type :=
| Normal (a : A)
| Throw (e : exn).
Arguments Normal {A} a.
Arguments Throw {A} e.

Definition cbind {A B} (c : completion A) (k : A -> completion B)
  : completion B :=
  match c with
  | Normal a => k a
  | Throw e => Throw e
  end.

(** [o.m(...)] where [o] is the result of an array read: calling a method
    of [undefined] throws a [TypeError]. *)
Definition member_of {A} (v : option A) : completion A :=
  match v with
  | Some a => Normal a
  | None => Throw (TypeError "Cannot read properties of undefined")
  end.

End JS.

Import JS.

Notation "x <- c ;; k" := (cbind c (fun x => k))
  (at level 61, c at next level, right associativity).

(** ** The data model *)

(** [interface MenuItem].  The interface declares four strings; at run time
    a field holds what the array read [values[i]] produced, which is
    [undefined] when the row has no such position. *)
Record MenuItem : Type := mkMenuItem {
  Date : option jsstring;
  Meal_Type : option jsstring;
  Item_Name : option jsstring;
  Price : option jsstring
}.

(** ** The parser *)

(** [line.split(',').map(v => v.trim())] *)
Definition fields (line : jsstring) : list jsstring :=
  List.map trim (split COMMA line).

(** The object literal pushed for one row. *)
Definition item_of_values (values : list jsstring) : MenuItem :=
  {| Date := nth_error values 0;
     Meal_Type := nth_error values 1;
     Item_Name := nth_error values 2;
     Price := nth_error values 3 |}.

(** One iteration of the [for] loop over [lines[1..]]. *)
Definition parse_row (headers : list jsstring) (data : list MenuItem)
  (line : jsstring) : list MenuItem :=
  let values := fields line in
  if Nat.eqb (List.length values) (List.length headers)
  then data ++ [item_of_values values]
  else data.

(** [csv.trim().split('\n')]: the lines the parser sees. *)
Definition lines_of (csv : jsstring) : list jsstring :=
  split LF (trim csv).

(** [parseCSVToJSON].  [lines[0].split] throws when [lines[0]] is
    [undefined]; the loop visits [lines[1]], ..., [lines[lines.length-1]]. *)
Definition parseCSVToJSON (csv : jsstring) : completion (list MenuItem) :=
  let lines := lines_of csv in
  line0 <- member_of (nth_error lines 0) ;;
  let headers := fields line0 in
  Normal (fold_left (parse_row headers) (skipn 1 lines) []).

(** ** The filter *)

(** [item.Date === today] with [today] a string: strict equality of a
    string-or-undefined value with a string. *)
Definition strict_eq_string (v : option jsstring) (s : jsstring) : bool :=
  match v with
  | Some d => jsstring_eqb d s
  | None => false
  end.

(** [data.filter(item => item.Date === today)] *)
Definition todaysMenu (data : list MenuItem) (today : jsstring)
  : list MenuItem :=
  List.filter (fun item => strict_eq_string (Date item) today) data.

(** ** Arrays *)

Module Arr.

(** [a.indexOf(x)] on an array of strings: the first position of [x], or
    -1. *)
Fixpoint indexOf_from (i : Z) (a : list jsstring) (x : jsstring) : Z :=
  match a with
  | [] => (-1)%Z
  | y :: a' => if jsstring_eqb y x then i else indexOf_from (i + 1)%Z a' x
  end.

Definition indexOf (a : list jsstring) (x : jsstring) : Z :=
  indexOf_from 0%Z a x.

(** [a.sort(cmp)].  The sort of ECMAScript is stable, and for a consistent
    comparator its result is determined: the elements in ascending order
    of [cmp], equal ones in their original order.  Insertion from the
    right computes that order. *)
Fixpoint insert {A} (cmp : A -> A -> Z) (x : A) (l : list A) : list A :=
  match l with
  | [] => [x]
  | y :: l' =>
      if (cmp x y <=? 0)%Z then x :: l else y :: insert cmp x l'
  end.

Definition sort {A} (cmp : A -> A -> Z) (a : list A) : list A :=
  fold_right (insert cmp) [] a.

End Arr.

(** ** Plain objects used as maps *)

Module Obj.

(** An object created by the literal [{}]: its own data properties in the
    order of their creation.  Its prototype is [Object.prototype]. *)
Definition t (V : Type) := list (jsstring * V).

Definition empty {V} : t V := [].

(** The property names every such object inherits: the properties of
    [Object.prototype], with the legacy accessors that browsers define. *)
Definition ObjectPrototype_names : list jsstring :=
  List.map str
    [ "constructor"; "hasOwnProperty"; "isPrototypeOf";
      "propertyIsEnumerable"; "toLocaleString"; "toString"; "valueOf";
      "__proto__"; "__defineGetter__"; "__defineSetter__";
      "__lookupGetter__"; "__lookupSetter__" ]%string.

Definition inherited (k : jsstring) : bool :=
  existsb (jsstring_eqb k) ObjectPrototype_names.

Fixpoint own {V} (o : t V) (k : jsstring) : option V :=
  match o with
  | [] => None
  | (k', v) :: o' => if jsstring_eqb k k' then Some v else own o' k
  end.

(** What the read [o[k]] evaluates to.  The inherited values are functions
    (or, for [__proto__], the prototype object): truthy, and none of them
    has a [push] method. *)
Inductive value (V : Type) : Type :=
| Own (v : V)
| Inherited
| Undefined.
Arguments Own {V} v.
Arguments Inherited {V}.
Arguments Undefined {V}.

Definition get {V} (o : t V) (k : jsstring) : value V :=
  match own o k with
  | Some v => Own v
  | None => if inherited k then Inherited else Undefined
  end.

(** Replace the value of an own property, keeping its position. *)
Fixpoint update {V} (o : t V) (k : jsstring) (v : V) : t V :=
  match o with
  | [] => []
  | (k', v') :: o' =>
      if jsstring_eqb k k' then (k', v) :: o' else (k', v') :: update o' k v
  end.

(** The assignment [o[k] = v] for a name that is not inherited: an own
    property is overwritten in place, a new one is created last. *)
Definition set {V} (o : t V) (k : jsstring) (v : V) : t V :=
  match own o k with
  | Some _ => update o k v
  | None => o ++ [(k, v)]
  end.

(** Array indices: the canonical decimal strings of the integers
    0 .. 2^32 - 2. *)
Definition digit (c : code_unit) : option N :=
  if ((48 <=? c) && (c <=? 57))%N then Some (c - 48)%N else None.

Fixpoint decimal (acc : N) (s : jsstring) : option N :=
  match s with
  | [] => Some acc
  | c :: s' =>
      match digit c with
      | Some d => decimal (10 * acc + d)%N s'
      | None => None
      end
  end.

Definition array_index (k : jsstring) : option N :=
  match k with
  | [] => None
  | c :: rest =>
      if ((c =? 48)%N && negb (Nat.eqb (List.length rest) 0)) then None
      else match decimal 0%N k with
           | Some n => if (n <=? 4294967294)%N then Some n else None
           | None => None
           end
  end.

Definition is_array_index (k : jsstring) : bool :=
  match array_index k with Some _ => true | None => false end.

Definition index_value (k : jsstring) : N :=
  match array_index k with Some n => n | None => 0%N end.

(** Ascending numeric order of array-index names. *)
Definition compare_indices (a b : jsstring) : Z :=
  (Z.of_N (index_value a) - Z.of_N (index_value b))%Z.

Definition ascending_indices (l : list jsstring) : list jsstring :=
  Arr.sort compare_indices l.

(** [Object.keys(o)]: the own property names, array indices first in
    ascending numeric order, then the other names in creation order. *)
Definition keys {V} (o : t V) : list jsstring :=
  let names := List.map fst o in
  ascending_indices (List.filter is_array_index names)
  ++ List.filter (fun k => negb (is_array_index k)) names.

End Obj.

(** ** Grouping and category order *)

(** The property key of [grouped[item.Meal_Type]]: the string itself, or
    the name "undefined". *)
Definition ToPropertyKey (v : option jsstring) : jsstring :=
  match v with
  | Some s => s
  | None => str "undefined"
  end.

Definition category (item : MenuItem) : jsstring :=
  ToPropertyKey (Meal_Type item).

(** The body of the [forEach] callback of [groupByMealType]. *)
Definition group_item (grouped : Obj.t (list MenuItem)) (item : MenuItem)
  : completion (Obj.t (list MenuItem)) :=
  let k := category item in
  (* if (!grouped[k]) grouped[k] = []; *)
  let grouped :=
    match Obj.get grouped k with
    | Obj.Undefined => Obj.set grouped k []
    | Obj.Own _ | Obj.Inherited => grouped
    end in
  (* grouped[k].push(item); the array held by the property grows in place *)
  match Obj.get grouped k with
  | Obj.Own arr => Normal (Obj.update grouped k (arr ++ [item]))
  | Obj.Inherited => Throw (TypeError "grouped[item.Meal_Type].push is not a function")
  | Obj.Undefined => Throw (TypeError "Cannot read properties of undefined")
  end.

(** [a.forEach(f)] for a callback that updates [s] and may throw. *)
Fixpoint forEach {S A} (f : S -> A -> completion S) (a : list A) (s : S)
  : completion S :=
  match a with
  | [] => Normal s
  | x :: a' => s' <- f s x ;; forEach f a' s'
  end.

Definition groupByMealType (menuItems : list MenuItem)
  : completion (Obj.t (list MenuItem)) :=
  forEach group_item menuItems Obj.empty.

Definition mealTypeOrder : list jsstring :=
  List.map str ["Breakfast"; "Lunch"; "Snacks"; "Dinner"]%string.

(** The comparator passed to [sort]. *)
Definition compareMealTypes (a b : jsstring) : Z :=
  let aIndex := Arr.indexOf mealTypeOrder a in
  let bIndex := Arr.indexOf mealTypeOrder b in
  ((if aIndex =? -1 then 999 else aIndex)
   - (if bIndex =? -1 then 999 else bIndex))%Z.

Definition sortedMealTypes (groupedMenu : Obj.t (list MenuItem))
  : list jsstring :=
  Arr.sort compareMealTypes (Obj.keys groupedMenu).

(** ** Component state and the refresh cycle *)

(** The four [useState] cells of [App]. *)
Record AppState : Type := mkAppState {
  menuItems : list MenuItem;
  loading : bool;
  error : option jsstring;        (* [null] is [None] *)
  currentDate : jsstring
}.

(** The initial values passed to [useState]. *)
Definition initialState : AppState :=
  {| menuItems := []; loading := true; error := None; currentDate := [] |}.

(** What one run of [fetchMenuData] can change: the state cells and the
    console. *)
Record World : Type := mkWorld {
  state : AppState;
  console : list (jsstring * exn)   (* [console.error(label, err)] calls *)
}.

(** The HTTP response as the code reads it: [response.ok] and the settled
    promise of [response.text()]. *)
Record Response : Type := mkResponse {
  ok : bool;
  text : completion jsstring
}.

(** What one cycle reads from outside the component. *)
Record Env : Type := mkEnv {
  fetched : completion Response;  (* the settled [fetch(GOOGLE_SHEETS_CSV_URL)] *)
  today : jsstring;               (* [new Date().toISOString().split('T')[0]] *)
  localeDate : jsstring           (* [new Date().toLocaleDateString('en-IN', ...)] *)
}.

(** Computations over the world that may throw. *)
Definition M (A : Type) : Type := World -> completion A * World.

Definition mret {A} (a : A) : M A := fun w => (Normal a, w).

Definition mbind {A B} (c : M A) (k : A -> M B) : M B :=
  fun w =>
    match c w with
    | (Normal a, w') => k a w'
    | (Throw e, w') => (Throw e, w')
    end.

Notation "x <~ c ;; k" := (mbind c (fun x => k))
  (at level 61, c at next level, right associativity).
Notation "c ;;; k" := (mbind c (fun _ => k))
  (at level 61, right associativity).

Definition throw {A} (e : exn) : M A := fun w => (Throw e, w).

(** [await p] for a promise that settles with [p]. *)
Definition await {A} (p : completion A) : M A := fun w => (p, w).

(** A call of a function that touches no state and may throw. *)
Definition call {A} (c : completion A) : M A := fun w => (c, w).

Definition modify (f : AppState -> AppState) : M unit :=
  fun w => (Normal tt, {| state := f (state w); console := console w |}).

Definition setMenuItems (v : list MenuItem) : M unit :=
  modify (fun s => {| menuItems := v; loading := loading s;
                      error := error s; currentDate := currentDate s |}).
Definition setLoading (v : bool) : M unit :=
  modify (fun s => {| menuItems := menuItems s; loading := v;
                      error := error s; currentDate := currentDate s |}).
Definition setError (v : option jsstring) : M unit :=
  modify (fun s => {| menuItems := menuItems s; loading := loading s;
                      error := v; currentDate := currentDate s |}).
Definition setCurrentDate (v : jsstring) : M unit :=
  modify (fun s => {| menuItems := menuItems s; loading := loading s;
                      error := error s; currentDate := v |}).

Definition console_error (label : jsstring) (err : exn) : M unit :=
  fun w => (Normal tt,
            {| state := state w; console := console w ++ [(label, err)] |}).

(** [try { body } catch (err) { handler } finally { finalizer }] *)
Definition try_catch_finally {A} (body : M A) (handler : exn -> M A)
  (finalizer : M unit) : M A :=
  fun w =>
    let (r1, w1) := body w in
    let (r2, w2) :=
      match r1 with
      | Normal a => (Normal a, w1)
      | Throw e => handler e w1
      end in
    match finalizer w2 with
    | (Normal _, w3) => (r2, w3)
    | (Throw e, w3) => (Throw e, w3)
    end.

Definition unable_to_load : jsstring :=
  str "Unable to load menu. Please try again later.".

(** The [try] block of [fetchMenuData]. *)
Definition fetch_body (env : Env) : M unit :=
  setLoading true ;;;
  setError None ;;;
  response <~ await (fetched env) ;;
  (if negb (ok response) then throw (Error "Failed to fetch menu")
   else mret tt) ;;;
  csvText <~ await (text response) ;;
  data <~ call (parseCSVToJSON csvText) ;;
  let todaysMenu := todaysMenu data (today env) in
  setMenuItems todaysMenu ;;;
  setCurrentDate (localeDate env).

Definition fetchMenuData (env : Env) : M unit :=
  try_catch_finally
    (fetch_body env)
    (fun err =>
       setError (Some unable_to_load) ;;;
       console_error (str "Error fetching menu:") err)
    (setLoading false).

(** The state and console after one refresh cycle. *)
Definition refresh (env : Env) (w : World) : World :=
  snd (fetchMenuData env w).

(** [useEffect]: one cycle when the component mounts, then one at every
    tick of the five-minute interval.  Cycles that do not overlap run one
    after the other, each from the world the previous one left. *)
Definition run (cycles : list Env) (w : World) : World :=
  fold_left (fun w env => refresh env w) cycles w.

(** ** What the component renders *)

(** The status signal the conditional under [<main>] reads off the state. *)
Inductive Status : Type :=
| Loading
| Failed (msg : option jsstring)
| Ready.

(** The alternatives of the conditional under [<main>]. *)
Inductive Main : Type :=
| LoadingMessage                  (* "Loading today's menu..." *)
| ErrorMessage (msg : option jsstring)   (* [{error}] *)
| NotUpdatedMessage               (* "Menu not updated yet." *)
| MenuSections (sections : list (jsstring * list MenuItem)).

(** The rendered tree, as far as it depends on the state: the date shown in
    the header and the main area. *)
Record Rendered : Type := mkRendered {
  header_date : jsstring;
  main : Main
}.

(** Truthiness of a string-or-null value. *)
Definition truthy (v : option jsstring) : bool :=
  match v with
  | Some (_ :: _) => true
  | Some [] | None => false
  end.

(** [xs.map(f)] for a callback that may throw. *)
Fixpoint mapE {A B} (f : A -> completion B) (xs : list A)
  : completion (list B) :=
  match xs with
  | [] => Normal []
  | x :: xs' => y <- f x ;; ys <- mapE f xs' ;; Normal (y :: ys)
  end.

(** One category section: the heading and the cards of
    [groupedMenu[mealType].map(...)]. *)
Definition section (groupedMenu : Obj.t (list MenuItem)) (mealType : jsstring)
  : completion (jsstring * list MenuItem) :=
  match Obj.get groupedMenu mealType with
  | Obj.Own items => Normal (mealType, items)
  | Obj.Inherited | Obj.Undefined =>
      Throw (TypeError "groupedMenu[mealType].map is not a function")
  end.

Definition status (st : AppState) : Status :=
  if loading st then Loading
  else if truthy (error st) then Failed (error st)
  else Ready.

(** The function component: [groupedMenu] and [sortedMealTypes] are computed
    on every render, before the conditional. *)
Definition App (st : AppState) : completion Rendered :=
  groupedMenu <- groupByMealType (menuItems st) ;;
  let sortedMealTypes := sortedMealTypes groupedMenu in
  main <-
    (if loading st then Normal LoadingMessage
     else if truthy (error st) then Normal (ErrorMessage (error st))
     else if Nat.eqb (List.length (menuItems st)) 0
     then Normal NotUpdatedMessage
     else sections <- mapE (section groupedMenu) sortedMealTypes ;;
          Normal (MenuSections sections)) ;;
  Normal {| header_date := currentDate st; main := main |}.

(** The view handed to presentation: the ordered category names with the
    records of each. *)
Definition menuView (items : list MenuItem)
  : completion (list (jsstring * list MenuItem)) :=
  groupedMenu <- groupByMealType items ;;
  mapE (section groupedMenu) (sortedMealTypes groupedMenu).

(** Parse, filter, group and sort composed: the view for a response body
    and a date. *)
Definition pipeline (csvText today : jsstring)
  : completion (list (jsstring * list MenuItem)) :=
  data <- parseCSVToJSON csvText ;;
  menuView (todaysMenu data today).

(** ** Notions used to state the properties *)

(** The data flow of the [try] block without the state: what the cycle
    fetched and parsed, or the exception that ended it. *)
Definition fetched_data (env : Env) : completion (list MenuItem) :=
  response <- fetched env ;;
  if negb (ok response) then Throw (Error "Failed to fetch menu")
  else csvText <- text response ;; parseCSVToJSON csvText.

(** The ways a cycle fails: the request is rejected, the response status is
    not a success, reading the body is rejected, or the parser throws. *)
Inductive failure (env : Env) : exn -> Prop :=
| transport_failure err :
    fetched env = Throw err -> failure env err
| status_failure response :
    fetched env = Normal response -> ok response = false ->
    failure env (Error "Failed to fetch menu")
| body_failure response err :
    fetched env = Normal response -> ok response = true ->
    text response = Throw err -> failure env err
| parse_failure response csvText err :
    fetched env = Normal response -> ok response = true ->
    text response = Normal csvText -> parseCSVToJSON csvText = Throw err ->
    failure env err.

(** The environment of a cycle whose request succeeds with body [csvText]. *)
Definition success (csvText today localeDate : jsstring) : Env :=
  {| fetched := Normal {| ok := true; text := Normal csvText |};
     today := today; localeDate := localeDate |}.

(** The record of a row and the test the loop applies to it. *)
Definition row_item (row : jsstring) : MenuItem := item_of_values (fields row).

Definition well_formed (header row : jsstring) : bool :=
  Nat.eqb (List.length (fields row)) (List.length (fields header)).

(** [v] is [raw] without the white space at its two ends: [raw] is [v]
    between two runs of white space, and [v] neither starts nor ends with
    white space. *)
Definition stripped (raw v : jsstring) : Prop :=
  (exists before after,
      raw = before ++ v ++ after
      /\ forallb isWhiteSpace before = true
      /\ forallb isWhiteSpace after = true)
  /\ (forall c rest, v = c :: rest -> isWhiteSpace c = false)
  /\ (forall init c, v = init ++ [c] -> isWhiteSpace c = false).

(** A field of a record against the field at the same position of its
    row: the stripped field, or undefined when the row has no such
    position. *)
Definition field_of (raw value : option jsstring) : Prop :=
  match raw, value with
  | Some r, Some v => stripped r v
  | None, None => True
  | Some _, None | None, Some _ => False
  end.

(** Membership in an array of strings. *)
Definition mem (k : jsstring) (l : list jsstring) : bool :=
  existsb (jsstring_eqb k) l.

(** The distinct names of a sequence, in the order first encountered. *)
Definition seen (ks : list jsstring) : list jsstring :=
  fold_left (fun acc k => if mem k acc then acc else acc ++ [k]) ks [].

(** The records of one category, in their order in [items]. *)
Definition of_category (k : jsstring) (items : list MenuItem)
  : list MenuItem :=
  List.filter (fun item => jsstring_eqb (category item) k) items.

(** The partition of [items] by category: one property per category, created
    in the order first encountered, each holding that category's records in
    their order in [items]. *)
Definition partition_by_category (items : list MenuItem)
  : Obj.t (list MenuItem) :=
  List.map (fun k => (k, of_category k items)) (seen (List.map category items)).

(** A record whose category is the name of an inherited property. *)
Definition inherited_category (item : MenuItem) : bool :=
  Obj.inherited (category item).

(** The exception of [grouped[k].push(item)] when [grouped[k]] is an
    inherited value: it has no [push]. *)
Definition push_throws : completion (Obj.t (list MenuItem)) :=
  Throw (TypeError "grouped[item.Meal_Type].push is not a function").

(** The rank the comparator gives a category name. *)
Definition rank (k : jsstring) : Z :=
  let index := Arr.indexOf mealTypeOrder k in
  if (index =? -1)%Z then 999%Z else index.

(** The elements of [l] whose key is [r], for each [r] of [rs] in turn. *)
Definition buckets {A} (key : A -> Z) (rs : list Z) (l : list A) : list A :=
  flat_map (fun r => List.filter (fun y => (key y =? r)%Z) l) rs.

(** The category order as the specification words it: the names of the
    priority list that occur, by their index in that list, then every other
    name in the order first encountered. *)
Definition spec_category_order (items : list MenuItem) : list jsstring :=
  let first := seen (List.map category items) in
  List.filter (fun c => mem c first) mealTypeOrder
  ++ List.filter (fun k => negb (mem k mealTypeOrder)) first.

(** The state cells that hold menu data: the record set and the date label. *)
Definition exposed (st : AppState) : list MenuItem * jsstring :=
  (menuItems st, currentDate st).

(** The records of a view: those listed under one of its categories. *)
Definition shown (view : list (jsstring * list MenuItem)) (item : MenuItem)
  : Prop :=
  exists mealType items, In (mealType, items) view /\ In item items.

(** ** Sample data *)

(** A record with four string fields. *)
Definition menu_item (date mealType name price : string) : MenuItem :=
  {| Date := Some (str date); Meal_Type := Some (str mealType);
     Item_Name := Some (str name); Price := Some (str price) |}.

(** A text from its lines, each ended by a line feed. *)
Definition text_of_lines (lines : list string) : jsstring :=
  str (String.concat "" (List.map (fun l => l ++ String "010"%char "")
                           lines))%string.

(** A sheet with two rows for one day and a row of two fields. *)
Definition sheet : jsstring :=
  text_of_lines [ "Date,Meal_Type,Item_Name,Price";
                  "2024-01-01,Lunch,Rice,50";
                  " 2024-01-01 , Breakfast ,Idli, 30";
                  "badrow,onlytwo" ]%string.

(** A sheet whose rows all have the four fields of the header. *)
Definition clean_sheet : jsstring :=
  text_of_lines [ "Date,Meal_Type,Item_Name,Price";
                  "2024-01-01,Lunch,Rice,50";
                  " 2024-01-01 , Breakfast ,Idli, 30" ]%string.

(** Records of the five categories Dinner, Breakfast, Snacks, Unknown and
    Lunch, in that order. *)
Definition five_categories : list MenuItem :=
  List.map (fun c => menu_item "2024-01-01" c "Item" "10")
    ["Dinner"; "Breakfast"; "Snacks"; "Unknown"; "Lunch"]%string.

(** Two records whose categories are the names "2" and "1", in that
    order. *)
Definition numbered_categories : list MenuItem :=
  [ menu_item "2024-01-01" "2" "Dosa" "40";
    menu_item "2024-01-01" "1" "Idli" "30" ].

(** A record whose category is the name "constructor". *)
Definition constructor_item : MenuItem :=
  menu_item "2024-01-01" "constructor" "Idli" "30".

(** A sheet with that record as its only row. *)
Definition constructor_sheet : jsstring :=
  text_of_lines [ "Date,Meal_Type,Item_Name,Price";
                  "2024-01-01,constructor,Idli,30" ]%string.

(** A state left by an earlier successful cycle, and a cycle whose request
    is rejected. *)
Definition earlier_state : AppState :=
  {| menuItems := [menu_item "2024-01-01" "Lunch" "Rice" "50"];
     loading := false; error := None;
     currentDate := str "Monday 1 January 2024" |}.

Definition rejected_cycle : Env :=
  {| fetched := Throw (Rejected (str "Failed to fetch"));
     today := str "2024-01-02";
     localeDate := str "Tuesday 2 January 2024" |}.

(** ** Notions used by the further properties *)

Definition CR : code_unit := 13%N.      (* '\r' *)

(** The number of commas of a line. *)
Definition commas (line : jsstring) : nat := count_occ N.eq_dec line COMMA.


(** [l'] is [l] with white space added before and after. *)
Definition padded (l l' : jsstring) : Prop :=
  exists before after,
    forallb isWhiteSpace before = true /\ forallb isWhiteSpace after = true
    /\ l' = before ++ l ++ after.

(** The text with every line feed preceded by a carriage return. *)
Definition crlf (s : jsstring) : jsstring :=
  flat_map (fun c => if (c =? LF)%N then [CR; LF] else [c]) s.

(** ** The refresh cycle in two turns *)

(** [fetchMenuData] is an [async] function: the code before the first
    [await] runs when the function is called, the rest runs when the
    awaited promises have settled.  Between the two, other code of the page
    may run, in particular another call started by the interval.  After the
    first [await] the function writes the state only in its last turn: the
    turn between [await fetch(...)] and [await response.text()] writes
    nothing. *)

(** The turn of the call: the statements before [await fetch(...)]. *)
Definition fetch_start : M unit :=
  setLoading true ;;;
  setError None.

(** The statements of the [try] block from [await fetch(...)] on. *)
Definition fetch_rest (env : Env) : M unit :=
  response <~ await (fetched env) ;;
  (if negb (ok response) then throw (Error "Failed to fetch menu")
   else mret tt) ;;;
  csvText <~ await (text response) ;;
  data <~ call (parseCSVToJSON csvText) ;;
  let todaysMenu := todaysMenu data (today env) in
  setMenuItems todaysMenu ;;;
  setCurrentDate (localeDate env).

(** The world after the turn of the call. *)
Definition start (w : World) : World := snd (fetch_start w).

(** The world after the turn in which the cycle ends: the rest of the
    [try] block, the [catch] block if it throws, and the [finally]
    block. *)
Definition settle (env : Env) (w : World) : World :=
  snd (try_catch_finally
         (fetch_rest env)
         (fun err =>
            setError (Some unable_to_load) ;;;
            console_error (str "Error fetching menu:") err)
         (setLoading false) w).

(** What happens to the component over time: [fetchMenuData] is called
    (on mount or by the interval), or a cycle called earlier ends. *)
Inductive event : Type :=
| Call
| Settle (env : Env).

Definition step (w : World) (e : event) : World :=
  match e with
  | Call => start w
  | Settle env => settle env w
  end.

Definition interleave (events : list event) (w : World) : World :=
  fold_left step events w.

(** A cycle that ends in the [catch] block. *)
Definition failed (env : Env) : bool :=
  match fetched_data env with
  | Throw _ => true
  | Normal _ => false
  end.

(** ** Icons and gradients *)

(** The icon components of [lucide-react] that [getMealIcon] returns. *)
Inductive Icon : Type := Sun | Utensils | Coffee | Moon | Sparkles.

Section Presentation.

(** [String.prototype.toLowerCase], which follows the Unicode case
    mapping. *)
Variable toLowerCase : jsstring -> jsstring.

Definition getMealIcon (mealType : jsstring) : Icon :=
  let lower := toLowerCase mealType in
  if jsstring_eqb lower (str "breakfast") then Sun
  else if jsstring_eqb lower (str "lunch") then Utensils
  else if jsstring_eqb lower (str "snacks") then Coffee
  else if jsstring_eqb lower (str "dinner") then Moon
  else Sparkles.

Definition getMealGradient (mealType : jsstring) : jsstring :=
  let lower := toLowerCase mealType in
  if jsstring_eqb lower (str "breakfast") then str "from-orange-50 to-amber-50"
  else if jsstring_eqb lower (str "lunch") then str "from-red-50 to-orange-50"
  else if jsstring_eqb lower (str "snacks") then str "from-amber-50 to-yellow-50"
  else if jsstring_eqb lower (str "dinner") then str "from-slate-50 to-gray-50"
  else str "from-pink-50 to-rose-50".

End Presentation.

(** The gradient that goes with an icon. *)
Definition gradient_of (icon : Icon) : jsstring :=
  match icon with
  | Sun => str "from-orange-50 to-amber-50"
  | Utensils => str "from-red-50 to-orange-50"
  | Coffee => str "from-amber-50 to-yellow-50"
  | Moon => str "from-slate-50 to-gray-50"
  | Sparkles => str "from-pink-50 to-rose-50"
  end.


(** ** Further sample data *)

(** Records of two days, one of them with the category "constructor". *)
Definition two_days : list MenuItem :=
  [ menu_item "2024-01-01" "Lunch" "Rice" "50";
    constructor_item;
    menu_item "2024-01-02" "Dinner" "Dal" "45" ].

(** A cycle that fetches the sheet with the "constructor" row on its day. *)
Definition constructor_cycle : Env :=
  success constructor_sheet (str "2024-01-01") (str "Monday 1 January 2024").


(** * Properties *)

(** ** Strings *)

Lemma jsstring_eqb_eq (a b : jsstring) : jsstring_eqb a b = true <-> a = b.
Proof.
  unfold jsstring_eqb. destruct (list_eq_dec N.eq_dec a b); split;
    congruence.
Qed.

Lemma jsstring_eqb_refl (a : jsstring) : jsstring_eqb a a = true.
Proof. now apply jsstring_eqb_eq. Qed.

Lemma jsstring_eqb_neq (a b : jsstring) : jsstring_eqb a b = false <-> a <> b.
Proof.
  unfold jsstring_eqb. destruct (list_eq_dec N.eq_dec a b); split;
    congruence.
Qed.

Lemma jsstring_eqb_sym (a b : jsstring) : jsstring_eqb a b = jsstring_eqb b a.
Proof.
  destruct (jsstring_eqb b a) eqn:E.
  - apply jsstring_eqb_eq in E. subst. apply jsstring_eqb_refl.
  - apply jsstring_eqb_neq in E. apply jsstring_eqb_neq. congruence.
Qed.

Lemma mem_In (k : jsstring) (l : list jsstring) : mem k l = true <-> In k l.
Proof.
  unfold mem. rewrite existsb_exists. split.
  - intros (x & Hx & E). apply jsstring_eqb_eq in E. now subst.
  - intros H. exists k. split; [assumption | apply jsstring_eqb_refl].
Qed.

Lemma mem_not_In (k : jsstring) (l : list jsstring) :
  mem k l = false <-> ~ In k l.
Proof.
  rewrite <- mem_In. destruct (mem k l); split; congruence.
Qed.

(** Splitting never yields the empty array. *)
Lemma split_from_cons (sep : code_unit) (s cur : jsstring) :
  exists first rest, split_from sep cur s = first :: rest.
Proof.
  revert cur. induction s as [|c s IH]; intros cur; simpl.
  - now exists (rev cur), [].
  - destruct (c =? sep)%N.
    + now exists (rev cur), (split_from sep [] s).
    + apply IH.
Qed.

Lemma split_cons (sep : code_unit) (s : jsstring) :
  exists first rest, split sep s = first :: rest.
Proof. apply split_from_cons. Qed.

Lemma split_empty (sep : code_unit) : split sep [] = [[]].
Proof. reflexivity. Qed.

(** [trimStart] removes a prefix of white space and stops at the first
    code unit that is not white space. *)
Lemma trimStart_prefix (s : jsstring) :
  exists ws, s = ws ++ trimStart s /\ forallb isWhiteSpace ws = true.
Proof.
  induction s as [|c s (ws & E & Hws)]; simpl.
  - now exists [].
  - destruct (isWhiteSpace c) eqn:Hc.
    + exists (c :: ws). simpl. rewrite Hc, Hws. split; [congruence | easy].
    + now exists [].
Qed.

Lemma trimStart_head (s : jsstring) (c : code_unit) (s' : jsstring) :
  trimStart s = c :: s' -> isWhiteSpace c = false.
Proof.
  induction s as [|d s IH]; simpl; [discriminate|].
  destruct (isWhiteSpace d) eqn:Hd; [assumption|].
  intros E. injection E as -> _. assumption.
Qed.

Lemma trimStart_whitespace (s : jsstring) :
  forallb isWhiteSpace s = true -> trimStart s = [].
Proof.
  induction s as [|c s IH]; simpl; [reflexivity|].
  intros H. apply andb_prop in H as [Hc Hs]. rewrite Hc. auto.
Qed.

Lemma trimStart_app (l m : jsstring) :
  trimStart (l ++ m) =
  match trimStart l with
  | [] => trimStart m
  | _ :: _ => trimStart l ++ m
  end.
Proof.
  induction l as [|c l IH]; simpl.
  - reflexivity.
  - destruct (isWhiteSpace c); [apply IH | reflexivity].
Qed.

Lemma trimStart_fixed (c : code_unit) (s : jsstring) :
  isWhiteSpace c = false -> trimStart (c :: s) = c :: s.
Proof. intros H. simpl. now rewrite H. Qed.

Lemma trimEnd_cons (c : code_unit) (s : jsstring) :
  isWhiteSpace c = false -> trimEnd (c :: s) = c :: trimEnd s.
Proof.
  intros Hc. unfold trimEnd. simpl rev at 2. rewrite trimStart_app.
  destruct (trimStart (rev s)) eqn:E.
  - rewrite trimStart_fixed by assumption. reflexivity.
  - rewrite rev_app_distr. reflexivity.
Qed.

Lemma trimEnd_suffix (s : jsstring) :
  exists ws, s = trimEnd s ++ ws /\ forallb isWhiteSpace ws = true.
Proof.
  unfold trimEnd. destruct (trimStart_prefix (rev s)) as (ws & E & Hws).
  exists (rev ws). split.
  - rewrite <- rev_app_distr, <- E. now rewrite rev_involutive.
  - rewrite forallb_forall in *. intros x Hx. apply Hws.
    now apply in_rev.
Qed.

(** [trim] leaves the string between a prefix and a suffix of white space,
    and the result neither starts nor ends with white space. *)
Lemma trim_surrounding (s : jsstring) :
  exists before after,
    s = before ++ trim s ++ after
    /\ forallb isWhiteSpace before = true
    /\ forallb isWhiteSpace after = true.
Proof.
  destruct (trimStart_prefix s) as (before & E1 & H1).
  destruct (trimEnd_suffix (trimStart s)) as (after & E2 & H2).
  exists before, after. unfold trim. now rewrite <- E2.
Qed.

Lemma trim_first (s : jsstring) (c : code_unit) (s' : jsstring) :
  trim s = c :: s' -> isWhiteSpace c = false.
Proof.
  unfold trim. destruct (trimStart s) as [|d t] eqn:E.
  - discriminate.
  - pose proof (trimStart_head _ E) as Hd.
    rewrite trimEnd_cons by assumption. intros H. injection H as -> _.
    assumption.
Qed.

Lemma trim_last (s s' : jsstring) (c : code_unit) :
  trim s = s' ++ [c] -> isWhiteSpace c = false.
Proof.
  unfold trim, trimEnd. intros H.
  apply (f_equal (@rev _)) in H. rewrite rev_involutive, rev_app_distr in H.
  simpl in H. now apply trimStart_head in H.
Qed.

Lemma trim_whitespace (s : jsstring) :
  forallb isWhiteSpace s = true -> trim s = [].
Proof.
  intros H. unfold trim. now rewrite trimStart_whitespace.
Qed.

Lemma trimEnd_fixed (s : jsstring) : trimEnd (trimEnd s) = trimEnd s.
Proof.
  unfold trimEnd. rewrite rev_involutive. f_equal.
  destruct (trimStart (rev s)) as [|c t] eqn:E; [reflexivity|].
  apply trimStart_fixed. now apply trimStart_head in E.
Qed.

Lemma trim_idempotent (s : jsstring) : trim (trim s) = trim s.
Proof.
  unfold trim at 1 2. fold (trim s).
  destruct (trim s) as [|c t] eqn:E; [reflexivity|].
  rewrite trimStart_fixed by (now apply trim_first in E).
  rewrite <- E. unfold trim. apply trimEnd_fixed.
Qed.

Lemma trimStart_padding (ws s : jsstring) :
  forallb isWhiteSpace ws = true -> trimStart (ws ++ s) = trimStart s.
Proof.
  intros H. rewrite trimStart_app. now rewrite trimStart_whitespace.
Qed.

Lemma trimEnd_padding (s ws : jsstring) :
  forallb isWhiteSpace ws = true -> trimEnd (s ++ ws) = trimEnd s.
Proof.
  intros H. unfold trimEnd. rewrite rev_app_distr.
  rewrite trimStart_padding; [reflexivity|].
  rewrite forallb_forall in *. intros c Hc. apply H. now apply in_rev.
Qed.

(** White space around a text does not change what [trim] returns. *)
Lemma trim_padding (before s after : jsstring) :
  forallb isWhiteSpace before = true -> forallb isWhiteSpace after = true ->
  trim (before ++ s ++ after) = trim s.
Proof.
  intros Hb Ha. unfold trim. rewrite trimStart_padding by assumption.
  rewrite trimStart_app. destruct (trimStart s) as [|c t] eqn:E.
  - now rewrite trimStart_whitespace.
  - now rewrite trimEnd_padding.
Qed.

(** What [trim] returns is the string without the white space at its two
    ends, and nothing else is. *)
Lemma trim_stripped (s : jsstring) : stripped s (trim s).
Proof.
  split; [apply trim_surrounding|]. split.
  - intros c rest E. now apply trim_first in E.
  - intros init c E. now apply trim_last in E.
Qed.

Lemma trimEnd_last (init : jsstring) (c : code_unit) :
  isWhiteSpace c = false -> trimEnd (init ++ [c]) = init ++ [c].
Proof.
  intros H. unfold trimEnd. rewrite rev_app_distr. simpl.
  rewrite H. simpl. now rewrite rev_involutive.
Qed.

Lemma stripped_trim (raw v : jsstring) : stripped raw v -> v = trim raw.
Proof.
  intros ((before & after & -> & Hb & Ha) & Hfirst & Hlast).
  rewrite trim_padding by assumption. unfold trim.
  destruct v as [|c rest]; [reflexivity|].
  rewrite trimStart_fixed by (now apply (Hfirst c rest)).
  destruct (@exists_last _ (c :: rest)) as (init & d & E); [discriminate|].
  rewrite E. symmetry. apply trimEnd_last. now apply (Hlast init d).
Qed.

(** ** The parser *)

Lemma parse_rows_from (header : jsstring) (rows : list jsstring)
  (data : list MenuItem) :
  fold_left (parse_row (fields header)) rows data =
  data ++ List.map row_item (List.filter (well_formed header) rows).
Proof.
  revert data. induction rows as [|row rows IH]; intros data; simpl.
  - now rewrite app_nil_r.
  - rewrite IH. unfold parse_row, well_formed.
    destruct (Nat.eqb _ _); simpl.
    + now rewrite <- app_assoc.
    + reflexivity.
Qed.

(** What [parseCSVToJSON] returns, for the header line and the data rows of
    the text. *)
Lemma parse_lines (csv header : jsstring) (rows : list jsstring) :
  lines_of csv = header :: rows ->
  parseCSVToJSON csv =
  Normal (List.map row_item (List.filter (well_formed header) rows)).
Proof.
  intros E. unfold parseCSVToJSON. rewrite E. simpl.
  now rewrite parse_rows_from.
Qed.

Lemma lines_of_cons (csv : jsstring) :
  exists header rows, lines_of csv = header :: rows.
Proof. apply split_cons. Qed.

Lemma parse_returns (csv : jsstring) :
  exists data, parseCSVToJSON csv = Normal data.
Proof.
  destruct (lines_of_cons csv) as (header & rows & E).
  eexists. exact (parse_lines _ E).
Qed.

Lemma filter_all {A} (f : A -> bool) (l : list A) :
  Forall (fun x => f x = true) l -> List.filter f l = l.
Proof.
  induction 1 as [|x l Hx _ IH]; simpl; [reflexivity|].
  now rewrite Hx, IH.
Qed.


(** C1.  When every line after the first of the text the parser splits has
    as many fields as the header line, [parseCSVToJSON] returns one record
    per data row, in the order of the rows; the record at position [i] is
    built from row [i]: its [Date], [Meal_Type], [Item_Name] and [Price] are
    the fields 0, 1, 2 and 3 of that row with the white space at their two
    ends removed, so that no field of a record starts or ends with white
    space. *)
Theorem parse_one_record_per_row (csv header : jsstring)
  (rows : list jsstring) :
  lines_of csv = header :: rows ->
  Forall (fun row => List.length (fields row) = List.length (fields header))
    rows ->
  exists data,
    parseCSVToJSON csv = Normal data
    /\ data = List.map row_item rows
    /\ List.length data = List.length rows
    /\ forall i row, nth_error rows i = Some row ->
         exists item,
           nth_error data i = Some item
           /\ Date item = option_map trim (nth_error (split COMMA row) 0)
           /\ Meal_Type item = option_map trim (nth_error (split COMMA row) 1)
           /\ Item_Name item = option_map trim (nth_error (split COMMA row) 2)
           /\ Price item = option_map trim (nth_error (split COMMA row) 3)
           /\ field_of (nth_error (split COMMA row) 0) (Date item)
           /\ field_of (nth_error (split COMMA row) 1) (Meal_Type item)
           /\ field_of (nth_error (split COMMA row) 2) (Item_Name item)
           /\ field_of (nth_error (split COMMA row) 3) (Price item).
Proof.
  intros Hlines Hrows. exists (List.map row_item rows).
  split; [|split; [reflexivity | split]].
  - rewrite (parse_lines _ Hlines). do 2 f_equal. apply filter_all.
    eapply Forall_impl; [|exact Hrows]. intros row E. unfold well_formed.
    now apply Nat.eqb_eq.
  - apply length_map.
  - intros i row Hi. exists (row_item row). split.
    + now apply map_nth_error.
    + assert (Hfield : forall n,
                field_of (nth_error (split COMMA row) n)
                  (option_map trim (nth_error (split COMMA row) n))).
      { intros n. destruct (nth_error (split COMMA row) n) as [raw|]; simpl;
          [apply trim_stripped | exact I]. }
      unfold row_item, item_of_values, fields.
      cbn [Date Meal_Type Item_Name Price]. rewrite !nth_error_map.
      repeat split; apply Hfield.
Qed.


(** C10.  [parseCSVToJSON] returns for every input: splitting yields at
    least one element, so the header line exists.  The input is trimmed
    before it is split into lines, and the empty text, a text of white
    space only and a text of one line all parse to the empty list. *)
Theorem parse_total (csv : jsstring) :
  (exists data, parseCSVToJSON csv = Normal data)
  /\ (exists header rows, lines_of csv = header :: rows)
  /\ (forall before after,
        forallb isWhiteSpace before = true ->
        forallb isWhiteSpace after = true ->
        parseCSVToJSON (before ++ csv ++ after) = parseCSVToJSON csv)
  /\ parseCSVToJSON (trim csv) = parseCSVToJSON csv
  /\ parseCSVToJSON [] = Normal []
  /\ (forallb isWhiteSpace csv = true -> parseCSVToJSON csv = Normal [])
  /\ (forall header, lines_of csv = [header] -> parseCSVToJSON csv = Normal []).
Proof.
  split; [apply parse_returns|].
  split; [apply lines_of_cons|].
  split; [|split; [|split; [reflexivity | split]]].
  - intros before after Hb Ha. unfold parseCSVToJSON, lines_of.
    now rewrite trim_padding.
  - unfold parseCSVToJSON, lines_of. now rewrite trim_idempotent.
  - intros H. unfold parseCSVToJSON, lines_of. now rewrite trim_whitespace.
  - intros header H. now rewrite (parse_lines _ H).
Qed.

(** ** Objects used as maps *)

Lemma own_app {V} (a b : Obj.t V) (k : jsstring) :
  Obj.own (a ++ b) k =
  match Obj.own a k with
  | Some v => Some v
  | None => Obj.own b k
  end.
Proof.
  induction a as [|[k' v'] a IH]; simpl; [reflexivity|].
  now destruct (jsstring_eqb k k').
Qed.

Lemma own_tabulate {V} (f : jsstring -> V) (ks : list jsstring)
  (k : jsstring) :
  Obj.own (List.map (fun k' => (k', f k')) ks) k =
  if mem k ks then Some (f k) else None.
Proof.
  induction ks as [|k' ks IH]; simpl; [reflexivity|].
  destruct (jsstring_eqb k k') eqn:E; simpl.
  - apply jsstring_eqb_eq in E. now subst.
  - exact IH.
Qed.

Lemma update_app_new {V} (a b : Obj.t V) (k : jsstring) (v : V) :
  Obj.own a k = None -> Obj.update (a ++ b) k v = a ++ Obj.update b k v.
Proof.
  induction a as [|[k' v'] a IH]; simpl; [reflexivity|].
  destruct (jsstring_eqb k k'); [discriminate|].
  intros H. now rewrite IH.
Qed.

Lemma update_tabulate {V} (f : jsstring -> V) (ks : list jsstring)
  (k : jsstring) (v : V) :
  NoDup ks ->
  Obj.update (List.map (fun k' => (k', f k')) ks) k v =
  List.map (fun k' => (k', if jsstring_eqb k k' then v else f k')) ks.
Proof.
  induction 1 as [|k' ks Hnotin Hnd IH]; simpl; [reflexivity|].
  destruct (jsstring_eqb k k') eqn:E.
  - apply jsstring_eqb_eq in E. subst k'. f_equal.
    apply map_ext_in. intros k'' Hin.
    destruct (jsstring_eqb k k'') eqn:E'; [|reflexivity].
    apply jsstring_eqb_eq in E'. now subst.
  - now rewrite IH.
Qed.

(** The names first encountered. *)
Lemma seen_snoc (ks : list jsstring) (k : jsstring) :
  seen (ks ++ [k]) = if mem k (seen ks) then seen ks else seen ks ++ [k].
Proof. unfold seen. now rewrite fold_left_app. Qed.

Lemma seen_In (ks : list jsstring) (k : jsstring) :
  In k (seen ks) <-> In k ks.
Proof.
  induction ks as [|k' ks IH] using rev_ind; [reflexivity|].
  rewrite seen_snoc, in_app_iff. simpl.
  destruct (mem k' (seen ks)) eqn:E.
  - apply mem_In in E. rewrite IH in *. intuition (subst; auto).
  - rewrite in_app_iff, IH. simpl. tauto.
Qed.

Lemma seen_NoDup (ks : list jsstring) : NoDup (seen ks).
Proof.
  induction ks as [|k ks IH] using rev_ind; [constructor|].
  rewrite seen_snoc. destruct (mem k (seen ks)) eqn:E; [assumption|].
  apply mem_not_In in E.
  apply NoDup_rev in IH. rewrite <- (rev_involutive (seen ks ++ [k])).
  apply NoDup_rev. rewrite rev_app_distr. simpl. constructor.
  - now rewrite <- in_rev.
  - assumption.
Qed.

Lemma mem_seen (ks : list jsstring) (k : jsstring) :
  mem k (seen ks) = mem k ks.
Proof.
  destruct (mem k ks) eqn:E.
  - apply mem_In. apply seen_In. now apply mem_In.
  - apply mem_not_In. rewrite seen_In. now apply mem_not_In.
Qed.

(** The records of a category. *)
Lemma of_category_snoc (k : jsstring) (done : list MenuItem) (x : MenuItem) :
  of_category k (done ++ [x]) =
  of_category k done ++ (if jsstring_eqb (category x) k then [x] else []).
Proof. unfold of_category. now rewrite filter_app. Qed.

Lemma of_category_absent (k : jsstring) (items : list MenuItem) :
  ~ In k (List.map category items) -> of_category k items = [].
Proof.
  intros H. unfold of_category.
  induction items as [|x items IH]; simpl in *; [reflexivity|].
  destruct (jsstring_eqb (category x) k) eqn:E.
  - apply jsstring_eqb_eq in E. tauto.
  - apply IH. tauto.
Qed.

Lemma inherited_absent (done : list MenuItem) (k : jsstring) :
  existsb inherited_category done = false -> Obj.inherited k = true ->
  ~ In k (List.map category done).
Proof.
  intros Hdone Hk Hin. apply in_map_iff in Hin as (x & <- & Hx).
  assert (existsb inherited_category done = true); [|congruence].
  apply existsb_exists. now exists x.
Qed.

(** ** Grouping *)

Lemma own_partition (done : list MenuItem) (k : jsstring) :
  Obj.own (partition_by_category done) k =
  if mem k (List.map category done) then Some (of_category k done) else None.
Proof.
  unfold partition_by_category.
  rewrite (own_tabulate (fun k => of_category k done)). now rewrite mem_seen.
Qed.

(** One iteration on a record whose category is not an inherited name
    extends the partition by that record. *)
Lemma group_item_extends (done : list MenuItem) (x : MenuItem) :
  inherited_category x = false ->
  group_item (partition_by_category done) x =
  Normal (partition_by_category (done ++ [x])).
Proof.
  intros Hx. unfold group_item, Obj.get.
  set (k := category x). rewrite own_partition.
  assert (Hpart : partition_by_category (done ++ [x]) =
    List.map (fun k' => (k', of_category k' (done ++ [x])))
      (if mem k (List.map category done)
       then seen (List.map category done)
       else seen (List.map category done) ++ [k])).
  { unfold partition_by_category. rewrite map_app. simpl.
    now rewrite seen_snoc, mem_seen. }
  rewrite Hpart. clear Hpart.
  destruct (mem k (List.map category done)) eqn:Hk.
  - rewrite own_partition, Hk.
    f_equal. unfold partition_by_category.
    rewrite (update_tabulate (fun k' => of_category k' done))
      by apply seen_NoDup.
    apply map_ext. intros k'. rewrite of_category_snoc. fold k.
    destruct (jsstring_eqb k k') eqn:E.
    + apply jsstring_eqb_eq in E. now subst.
    + now rewrite app_nil_r.
  - change (Obj.inherited k) with (inherited_category x). rewrite Hx.
    assert (Hset : Obj.set (partition_by_category done) k []
                   = partition_by_category done ++ [(k, [])]).
    { unfold Obj.set. now rewrite own_partition, Hk. }
    rewrite Hset. clear Hset.
    assert (Hnew : Obj.own (partition_by_category done ++ [(k, [])]) k
                   = Some []).
    { rewrite own_app, own_partition, Hk. simpl.
      now rewrite jsstring_eqb_refl. }
    rewrite Hnew. f_equal.
    rewrite update_app_new by (now rewrite own_partition, Hk).
    simpl. rewrite jsstring_eqb_refl. rewrite map_app. simpl.
    apply mem_not_In in Hk. f_equal.
    + unfold partition_by_category. apply map_ext_in. intros k' Hin.
      rewrite of_category_snoc. fold k.
      destruct (jsstring_eqb k k') eqn:E; [|now rewrite app_nil_r].
      apply jsstring_eqb_eq in E. subst k'.
      apply (proj1 (seen_In _ _)) in Hin. tauto.
    + rewrite of_category_snoc. fold k. rewrite jsstring_eqb_refl.
      now rewrite of_category_absent.
Qed.

(** One iteration on a record whose category is an inherited name throws:
    the read [grouped[k]] finds the inherited value, no array is created,
    and the value has no [push]. *)
Lemma group_item_throws (done : list MenuItem) (x : MenuItem) :
  existsb inherited_category done = false ->
  inherited_category x = true ->
  group_item (partition_by_category done) x = push_throws.
Proof.
  intros Hdone Hx. unfold group_item, Obj.get.
  rewrite own_partition.
  pose proof (@inherited_absent done (category x) Hdone Hx) as Hk.
  apply mem_not_In in Hk. rewrite Hk.
  fold (inherited_category x). rewrite Hx.
  now rewrite own_partition, Hk.
Qed.

Lemma forEach_group_item (rest done : list MenuItem) :
  existsb inherited_category done = false ->
  forEach group_item rest (partition_by_category done) =
  if existsb inherited_category rest then push_throws
  else Normal (partition_by_category (done ++ rest)).
Proof.
  revert done. induction rest as [|x rest IH]; intros done Hdone; simpl.
  - now rewrite app_nil_r.
  - destruct (inherited_category x) eqn:Hx; simpl.
    + now rewrite group_item_throws.
    + rewrite group_item_extends by assumption. simpl.
      rewrite IH.
      * now rewrite <- app_assoc.
      * rewrite existsb_app. simpl. now rewrite Hdone, Hx.
Qed.

(** [groupByMealType] returns the partition by category, unless a record's
    category is the name of an inherited property, in which case it
    throws. *)
Lemma groupByMealType_result (items : list MenuItem) :
  groupByMealType items =
  if existsb inherited_category items then push_throws
  else Normal (partition_by_category items).
Proof.
  unfold groupByMealType.
  change (@Obj.empty (list MenuItem)) with (partition_by_category []).
  now rewrite forEach_group_item.
Qed.

Lemma groupByMealType_returns (items : list MenuItem)
  (grouped : Obj.t (list MenuItem)) :
  groupByMealType items = Normal grouped ->
  existsb inherited_category items = false
  /\ grouped = partition_by_category items.
Proof.
  rewrite groupByMealType_result.
  destruct (existsb inherited_category items); [discriminate|].
  intros E. injection E as <-. now split.
Qed.

(** ** Sorting by a numeric key *)

Section SortByKey.

Variable A : Type.
Variable key : A -> Z.
Variable cmp : A -> A -> Z.
Hypothesis cmp_key : forall x y, cmp x y = (key x - key y)%Z.

Lemma insert_perm (x : A) (l : list A) :
  Permutation (Arr.insert cmp x l) (x :: l).
Proof.
  induction l as [|y l IH]; simpl; [reflexivity|].
  destruct (cmp x y <=? 0)%Z; [reflexivity|].
  rewrite IH. apply perm_swap.
Qed.

Lemma sort_perm (l : list A) : Permutation (Arr.sort cmp l) l.
Proof.
  induction l as [|x l IH]; simpl; [reflexivity|].
  rewrite insert_perm. now apply perm_skip.
Qed.

Lemma insert_front (x : A) (l : list A) :
  (forall y, In y l -> (key x <= key y)%Z) -> Arr.insert cmp x l = x :: l.
Proof.
  destruct l as [|y l]; simpl; [reflexivity|].
  intros H. rewrite cmp_key.
  assert (key x <= key y)%Z by (apply H; now left).
  destruct (Z.leb_spec (key x - key y) 0); [reflexivity | lia].
Qed.

Lemma insert_pass (x : A) (l1 l2 : list A) :
  (forall y, In y l1 -> (key y < key x)%Z) ->
  Arr.insert cmp x (l1 ++ l2) = l1 ++ Arr.insert cmp x l2.
Proof.
  induction l1 as [|y l1 IH]; simpl; [reflexivity|].
  intros H. rewrite cmp_key.
  assert (key y < key x)%Z by (apply H; now left).
  destruct (Z.leb_spec (key x - key y) 0); [lia|].
  rewrite IH; [reflexivity|]. intros z Hz. apply H. now right.
Qed.

Lemma insert_sorted (x : A) (l : list A) :
  StronglySorted (fun a b => (key a <= key b)%Z) l ->
  StronglySorted (fun a b => (key a <= key b)%Z) (Arr.insert cmp x l).
Proof.
  induction 1 as [|y l Hl IH Hy]; simpl.
  - repeat constructor.
  - rewrite cmp_key. destruct (Z.leb_spec (key x - key y) 0).
    + constructor; [now constructor|].
      constructor; [lia|]. rewrite Forall_forall in *.
      intros z Hz. specialize (Hy z Hz). lia.
    + constructor; [assumption|].
      rewrite Forall_forall in *. intros z Hz.
      apply (Permutation_in _ (insert_perm x l)) in Hz.
      destruct Hz as [<-|Hz]; [lia | now apply Hy].
Qed.

Lemma sort_sorted (l : list A) :
  StronglySorted (fun a b => (key a <= key b)%Z) (Arr.sort cmp l).
Proof.
  induction l as [|x l IH]; simpl; [constructor | now apply insert_sorted].
Qed.

Lemma buckets_In (rs : list Z) (l : list A) (y : A) :
  In y (buckets key rs l) -> In (key y) rs /\ In y l.
Proof.
  unfold buckets. rewrite in_flat_map. intros (r & Hr & Hy).
  apply filter_In in Hy as [Hy E]. apply Z.eqb_eq in E. now subst.
Qed.

Lemma buckets_skip (rs : list Z) (l : list A) (x : A) :
  ~ In (key x) rs -> buckets key rs (x :: l) = buckets key rs l.
Proof.
  unfold buckets. induction rs as [|r rs IH]; intros H; [reflexivity|].
  cbn [flat_map]. rewrite IH by (simpl in H; tauto). f_equal.
  cbn [List.filter]. destruct (Z.eqb_spec (key x) r) as [E|E].
  - exfalso. apply H. now left.
  - reflexivity.
Qed.

Lemma insert_buckets (rs : list Z) (l : list A) (x : A) :
  StronglySorted Z.lt rs -> In (key x) rs ->
  Arr.insert cmp x (buckets key rs l) = buckets key rs (x :: l).
Proof.
  induction 1 as [|r rs Hrs IH Hr]; [contradiction|].
  rewrite Forall_forall in Hr. intros Hx.
  change (buckets key (r :: rs) l)
    with (List.filter (fun y => (key y =? r)%Z) l ++ buckets key rs l).
  change (buckets key (r :: rs) (x :: l))
    with (List.filter (fun y => (key y =? r)%Z) (x :: l)
          ++ buckets key rs (x :: l)).
  simpl List.filter. destruct (Z.eqb_spec (key x) r) as [E|E].
  - rewrite buckets_skip.
    + apply insert_front. intros y Hy. apply in_app_or in Hy as [Hy|Hy].
      * apply filter_In in Hy as [_ Hy]. apply Z.eqb_eq in Hy. lia.
      * apply buckets_In in Hy as [Hy _]. specialize (Hr _ Hy). lia.
    + intros Hin. specialize (Hr _ Hin). lia.
  - destruct Hx as [Hx|Hx]; [congruence|].
    rewrite insert_pass.
    + now rewrite IH.
    + intros y Hy. apply filter_In in Hy as [_ Hy]. apply Z.eqb_eq in Hy.
      specialize (Hr _ Hx). lia.
Qed.

Lemma buckets_nil (rs : list Z) : buckets key rs [] = [].
Proof. unfold buckets. induction rs; simpl; auto. Qed.

(** The stable sort lists the elements by ascending key, and the elements
    of one key in their original order. *)
Lemma sort_buckets (rs : list Z) (l : list A) :
  StronglySorted Z.lt rs -> Forall (fun x => In (key x) rs) l ->
  Arr.sort cmp l = buckets key rs l.
Proof.
  intros Hrs. induction 1 as [|x l Hx _ IH]; simpl.
  - now rewrite buckets_nil.
  - rewrite IH. now apply insert_buckets.
Qed.

End SortByKey.

(** ** Category order *)

Lemma compareMealTypes_rank (a b : jsstring) :
  compareMealTypes a b = (rank a - rank b)%Z.
Proof. reflexivity. Qed.

Lemma ranks_ascending : StronglySorted Z.lt [0; 1; 2; 3; 999]%Z.
Proof. repeat constructor. Qed.

(** The rank of a name is its position in the priority list, and 999 for
    the names that are not in it. *)
Lemma rank_position (k : jsstring) :
  (rank k =? 0)%Z = jsstring_eqb (str "Breakfast") k
  /\ (rank k =? 1)%Z = jsstring_eqb (str "Lunch") k
  /\ (rank k =? 2)%Z = jsstring_eqb (str "Snacks") k
  /\ (rank k =? 3)%Z = jsstring_eqb (str "Dinner") k
  /\ (rank k =? 999)%Z = negb (mem k mealTypeOrder)
  /\ In (rank k) [0; 1; 2; 3; 999]%Z.
Proof.
  unfold rank, mem, Arr.indexOf, mealTypeOrder.
  cbn [List.map Arr.indexOf_from existsb].
  rewrite !(jsstring_eqb_sym k).
  destruct (jsstring_eqb (str "Breakfast") k) eqn:E1;
    [apply jsstring_eqb_eq in E1; subst k; vm_compute; intuition|].
  destruct (jsstring_eqb (str "Lunch") k) eqn:E2;
    [apply jsstring_eqb_eq in E2; subst k; vm_compute; intuition|].
  destruct (jsstring_eqb (str "Snacks") k) eqn:E3;
    [apply jsstring_eqb_eq in E3; subst k; vm_compute; intuition|].
  destruct (jsstring_eqb (str "Dinner") k) eqn:E4;
    [apply jsstring_eqb_eq in E4; subst k; vm_compute; intuition|].
  vm_compute; intuition.
Qed.

Lemma filter_one (c : jsstring) (l : list jsstring) :
  NoDup l ->
  List.filter (jsstring_eqb c) l = if mem c l then [c] else [].
Proof.
  induction 1 as [|k l Hk Hl IH]; simpl; [reflexivity|].
  destruct (jsstring_eqb c k) eqn:E; simpl.
  - apply jsstring_eqb_eq in E. subst k. rewrite IH.
    apply mem_not_In in Hk. now rewrite Hk.
  - exact IH.
Qed.

Lemma filter_twice {A} (f g : A -> bool) (l : list A) :
  List.filter f (List.filter g l) = List.filter (fun x => g x && f x) l.
Proof.
  induction l as [|x l IH]; simpl; [reflexivity|].
  destruct (g x); simpl; [destruct (f x)|]; now rewrite IH.
Qed.

(** The sort puts the names of the priority list first, by their index
    in it, then the other names in the order they have in the array. *)
Lemma sort_by_priority (names : list jsstring) :
  NoDup names ->
  Arr.sort compareMealTypes names =
  List.filter (fun c => mem c names) mealTypeOrder
  ++ List.filter (fun k => negb (mem k mealTypeOrder)) names.
Proof.
  intros Hnd.
  rewrite (@sort_buckets _ rank compareMealTypes compareMealTypes_rank
             _ names ranks_ascending).
  - unfold buckets, mealTypeOrder. cbn [flat_map List.map List.filter].
    rewrite app_nil_r.
    rewrite (filter_ext _ _ (fun k => proj1 (rank_position k))).
    rewrite (filter_ext (fun k => (rank k =? 1)%Z) _
               (fun k => proj1 (proj2 (rank_position k)))).
    rewrite (filter_ext (fun k => (rank k =? 2)%Z) _
               (fun k => proj1 (proj2 (proj2 (rank_position k))))).
    rewrite (filter_ext (fun k => (rank k =? 3)%Z) _
               (fun k => proj1 (proj2 (proj2 (proj2 (rank_position k)))))).
    rewrite (filter_ext (fun k => (rank k =? 999)%Z) _
               (fun k => proj1 (proj2 (proj2 (proj2 (proj2
                                  (rank_position k))))))).
    rewrite !filter_one by assumption.
    repeat match goal with
           | |- context [mem ?c names] => destruct (mem c names)
           end; reflexivity.
  - apply Forall_forall. intros k _. apply rank_position.
Qed.

(** ** The keys of the grouped object *)

Lemma compare_indices_key (a b : jsstring) :
  Obj.compare_indices a b =
  (Z.of_N (Obj.index_value a) - Z.of_N (Obj.index_value b))%Z.
Proof. reflexivity. Qed.

Lemma ascending_indices_perm (l : list jsstring) :
  Permutation (Obj.ascending_indices l) l.
Proof. apply sort_perm. Qed.

Lemma ascending_indices_sorted (l : list jsstring) :
  StronglySorted (fun a b => (Obj.index_value a <= Obj.index_value b)%N)
    (Obj.ascending_indices l).
Proof.
  pose proof (@sort_sorted _ (fun k => Z.of_N (Obj.index_value k))
                Obj.compare_indices compare_indices_key l) as H.
  unfold Obj.ascending_indices.
  induction H as [|k ks _ IH Hk]; constructor; [assumption|].
  eapply Forall_impl; [|exact Hk]. intros k'. simpl. lia.
Qed.

Lemma filter_split_perm {A} (f : A -> bool) (l : list A) :
  Permutation (List.filter f l ++ List.filter (fun x => negb (f x)) l) l.
Proof.
  induction l as [|x l IH]; simpl; [reflexivity|].
  destruct (f x); simpl.
  - now apply perm_skip.
  - rewrite <- Permutation_middle. now apply perm_skip.
Qed.

Lemma keys_perm {V} (o : Obj.t V) :
  Permutation (Obj.keys o) (List.map fst o).
Proof.
  unfold Obj.keys. rewrite ascending_indices_perm. apply filter_split_perm.
Qed.

Lemma partition_names (items : list MenuItem) :
  List.map fst (partition_by_category items) = seen (List.map category items).
Proof.
  unfold partition_by_category. rewrite map_map. simpl. apply map_id.
Qed.

Lemma keys_partition_perm (items : list MenuItem) :
  Permutation (Obj.keys (partition_by_category items))
    (seen (List.map category items)).
Proof. rewrite keys_perm. now rewrite partition_names. Qed.

Lemma mem_perm (k : jsstring) (l l' : list jsstring) :
  Permutation l l' -> mem k l = mem k l'.
Proof.
  intros H. destruct (mem k l') eqn:E.
  - apply mem_In. apply mem_In in E.
    eapply Permutation_in; [symmetry; exact H | exact E].
  - apply mem_not_In. apply mem_not_In in E. intros Hin. apply E.
    eapply Permutation_in; [exact H | exact Hin].
Qed.

(** No name of the priority list is an array index. *)
Lemma listed_not_index (k : jsstring) :
  Obj.is_array_index k = true -> negb (mem k mealTypeOrder) = true.
Proof.
  intros H. destruct (mem k mealTypeOrder) eqn:E; [|reflexivity].
  apply mem_In in E. unfold mealTypeOrder in E. simpl in E.
  destruct E as [<-|[<-|[<-|[<-|[]]]]]; vm_compute in H; discriminate.
Qed.

(** ** The category order computed by the component *)

Lemma sortedMealTypes_partition (items : list MenuItem) :
  let first := seen (List.map category items) in
  let others := List.filter (fun k => negb (mem k mealTypeOrder)) first in
  sortedMealTypes (partition_by_category items) =
  List.filter (fun c => mem c first) mealTypeOrder
  ++ Obj.ascending_indices (List.filter Obj.is_array_index others)
  ++ List.filter (fun k => negb (Obj.is_array_index k)) others.
Proof.
  intros first others. unfold sortedMealTypes.
  pose proof (keys_partition_perm items) as Hperm. fold first in Hperm.
  rewrite sort_by_priority
    by (eapply Permutation_NoDup;
        [symmetry; exact Hperm | apply seen_NoDup]).
  f_equal.
  - apply filter_ext. intros c. now apply mem_perm.
  - unfold Obj.keys. rewrite partition_names. fold first.
    rewrite filter_app. unfold others. rewrite !filter_twice. f_equal.
    + rewrite filter_all.
      * f_equal. apply filter_ext. intros k.
        destruct (Obj.is_array_index k) eqn:E;
          [now rewrite listed_not_index | now rewrite andb_false_r].
      * apply Forall_forall. intros k Hk. apply listed_not_index.
        apply (Permutation_in _ (ascending_indices_perm _)) in Hk.
        now apply filter_In in Hk.
    + apply filter_ext. intros k. apply andb_comm.
Qed.

Lemma sortedMealTypes_In (items : list MenuItem) (k : jsstring) :
  In k (sortedMealTypes (partition_by_category items))
  <-> In k (List.map category items).
Proof.
  unfold sortedMealTypes. split; intros H.
  - apply (proj1 (seen_In _ _)).
    eapply Permutation_in; [apply keys_partition_perm|].
    eapply Permutation_in; [apply sort_perm | exact H].
  - apply (proj2 (seen_In _ _)) in H.
    eapply Permutation_in; [symmetry; apply sort_perm|].
    eapply Permutation_in; [symmetry; apply keys_partition_perm | exact H].
Qed.

(** C3 (amended).  When grouping returns, the category order lists the
    names of the priority list that occur, by their index in that list;
    then the other names that are array indices (canonical decimal
    integers such as "1" or "10"), in ascending numeric order; then the
    remaining names in the order first encountered.  When no other name is
    an array index this is the order the specification states, and the
    categories Dinner, Breakfast, Snacks, Unknown, Lunch come out as
    Breakfast, Lunch, Snacks, Dinner, Unknown. *)
Theorem category_order (items : list MenuItem)
  (grouped : Obj.t (list MenuItem)) :
  groupByMealType items = Normal grouped ->
  let first := seen (List.map category items) in
  let others := List.filter (fun k => negb (mem k mealTypeOrder)) first in
  let numeric := List.filter Obj.is_array_index others in
  sortedMealTypes grouped =
    List.filter (fun c => mem c first) mealTypeOrder
    ++ Obj.ascending_indices numeric
    ++ List.filter (fun k => negb (Obj.is_array_index k)) others
  /\ Permutation (Obj.ascending_indices numeric) numeric
  /\ StronglySorted (fun a b => (Obj.index_value a <= Obj.index_value b)%N)
       (Obj.ascending_indices numeric)
  /\ (numeric = [] -> sortedMealTypes grouped = spec_category_order items)
  /\ sortedMealTypes (partition_by_category five_categories) =
       List.map str ["Breakfast"; "Lunch"; "Snacks"; "Dinner"; "Unknown"]%string.
Proof.
  intros Hgroup first others numeric.
  apply groupByMealType_returns in Hgroup as [_ ->].
  pose proof (sortedMealTypes_partition items) as Hsorted.
  cbv zeta in Hsorted. fold first others numeric in Hsorted.
  split; [exact Hsorted|].
  split; [apply ascending_indices_perm|].
  split; [apply ascending_indices_sorted|].
  split; [|now vm_compute].
  intros Hnone. rewrite Hsorted. unfold spec_category_order.
  fold first others. f_equal. rewrite Hnone. simpl.
  apply filter_all. apply Forall_forall. intros k Hk.
  destruct (Obj.is_array_index k) eqn:E; [|reflexivity].
  assert (In k numeric) by (apply filter_In; now split).
  rewrite Hnone in *. contradiction.
Qed.

(** The five categories of the example, through the theorem. *)
Lemma category_order_five :
  exists grouped,
    groupByMealType five_categories = Normal grouped
    /\ sortedMealTypes grouped =
       List.map str ["Breakfast"; "Lunch"; "Snacks"; "Dinner"; "Unknown"]%string.
Proof.
  exists (partition_by_category five_categories).
  assert (H : groupByMealType five_categories
              = Normal (partition_by_category five_categories))
    by (vm_compute; reflexivity).
  split; [exact H|].
  rewrite (proj1 (category_order five_categories H)).
  vm_compute. reflexivity.
Defined.

(** C3 (as stated, refuted).  For two records of categories "2" and "1",
    encountered in that order, the component lists "1" before "2": the
    keys of the grouped object come with the array indices first, in
    ascending numeric order. *)
Lemma numbered_categories_reordered :
  exists grouped,
    groupByMealType numbered_categories = Normal grouped
    /\ sortedMealTypes grouped = [str "1"; str "2"]
    /\ spec_category_order numbered_categories = [str "2"; str "1"]
    /\ sortedMealTypes grouped <> spec_category_order numbered_categories.
Proof.
  eexists. split; [vm_compute; reflexivity|].
  split; [vm_compute; reflexivity|].
  split; [vm_compute; reflexivity|].
  vm_compute. discriminate.
Qed.

(** C7.  [groupByMealType] on a record whose category is "constructor"
    throws a [TypeError] instead of returning a group: the read
    [grouped["constructor"]] finds the function inherited from
    [Object.prototype], so no array is created and [push] is not a
    function.  The component throws while rendering such a menu, and so
    does the pipeline on a sheet with such a row. *)
Theorem groupByMealType_constructor_throws :
  groupByMealType [constructor_item] = push_throws
  /\ pipeline constructor_sheet (str "2024-01-01") =
       Throw (TypeError "grouped[item.Meal_Type].push is not a function")
  /\ App {| menuItems := [constructor_item]; loading := false;
            error := None; currentDate := [] |} =
       Throw (TypeError "grouped[item.Meal_Type].push is not a function").
Proof. repeat split; vm_compute; reflexivity. Qed.

(** Grouping partitions the records by category, keeping their relative
    order within each category, for every list in which no category is the
    name of an inherited property. *)
Lemma groupByMealType_partitions (items : list MenuItem) :
  existsb inherited_category items = false ->
  groupByMealType items = Normal (partition_by_category items)
  /\ forall k, Obj.get (partition_by_category items) k =
       if mem k (List.map category items)
       then Obj.Own (of_category k items)
       else if Obj.inherited k then Obj.Inherited else Obj.Undefined.
Proof.
  intros H. split.
  - now rewrite groupByMealType_result, H.
  - intros k. unfold Obj.get. rewrite own_partition.
    now destruct (mem k (List.map category items)).
Qed.

(** ** The view *)

Lemma sections_of_partition (items : list MenuItem) (names : list jsstring) :
  Forall (fun k => In k (List.map category items)) names ->
  mapE (section (partition_by_category items)) names =
  Normal (List.map (fun k => (k, of_category k items)) names).
Proof.
  induction 1 as [|k names Hk _ IH]; simpl; [reflexivity|].
  unfold section at 1, Obj.get. rewrite own_partition.
  apply mem_In in Hk. rewrite Hk. simpl. now rewrite IH.
Qed.

(** When grouping returns, the view lists the categories in the computed
    order, each with its records. *)
Lemma menuView_sections (items : list MenuItem)
  (view : list (jsstring * list MenuItem)) :
  menuView items = Normal view ->
  view = List.map (fun k => (k, of_category k items))
           (sortedMealTypes (partition_by_category items)).
Proof.
  unfold menuView. rewrite groupByMealType_result.
  destruct (existsb inherited_category items); [discriminate|]. simpl.
  rewrite sections_of_partition.
  - intros E. now injection E.
  - apply Forall_forall. intros k. apply sortedMealTypes_In.
Qed.

Lemma shown_iff (items : list MenuItem)
  (view : list (jsstring * list MenuItem)) (item : MenuItem) :
  menuView items = Normal view -> (shown view item <-> In item items).
Proof.
  intros ->%menuView_sections. unfold shown. split.
  - intros (k & group & Hin & Hitem). apply in_map_iff in Hin as (k' & E & _).
    injection E as <- <-. now apply filter_In in Hitem.
  - intros Hitem. exists (category item), (of_category (category item) items).
    split.
    + apply in_map_iff. exists (category item). split; [reflexivity|].
      apply sortedMealTypes_In. now apply in_map.
    + apply filter_In. split; [assumption | apply jsstring_eqb_refl].
Qed.

Lemma todaysMenu_In (data : list MenuItem) (today : jsstring)
  (item : MenuItem) :
  In item (todaysMenu data today) <-> In item data /\ Date item = Some today.
Proof.
  unfold todaysMenu. rewrite filter_In. unfold strict_eq_string.
  destruct (Date item) as [d|].
  - rewrite jsstring_eqb_eq. intuition congruence.
  - intuition congruence.
Qed.

(** ** The refresh cycle *)

Lemma failure_fetched_data (env : Env) (err : exn) :
  failure env err <-> fetched_data env = Throw err.
Proof.
  unfold fetched_data. split.
  - intros [e H|r H Hok|r e H Hok Htext|r csvText e H Hok Htext Hparse];
      rewrite H; simpl; [reflexivity|rewrite Hok; simpl..].
    + reflexivity.
    + now rewrite Htext.
    + now rewrite Htext.
  - destruct (fetched env) as [r|e] eqn:H; simpl.
    + destruct (ok r) eqn:Hok; simpl.
      * destruct (text r) as [csvText|e] eqn:Htext; simpl.
        -- intros Hparse. eapply parse_failure; eassumption.
        -- intros E. injection E as <-. eapply body_failure; eassumption.
      * intros E. injection E as <-. eapply status_failure; eassumption.
    + intros E. injection E as <-. now apply transport_failure.
Qed.

(** The state after a cycle: every cell is written when the cycle fetched
    and parsed a sheet; only [error] and [loading] are written when it
    failed. *)
Lemma refresh_state (env : Env) (w : World) :
  state (refresh env w) =
  match fetched_data env with
  | Normal data =>
      {| menuItems := todaysMenu data (today env); loading := false;
         error := None; currentDate := localeDate env |}
  | Throw _ =>
      {| menuItems := menuItems (state w); loading := false;
         error := Some unable_to_load; currentDate := currentDate (state w) |}
  end.
Proof.
  unfold refresh, fetchMenuData, try_catch_finally, fetch_body, fetched_data.
  unfold mbind, mret, throw, await, call, setLoading, setError, setMenuItems,
    setCurrentDate, console_error, modify, cbind.
  cbn [state console].
  destruct (fetched env) as [r|e]; [|reflexivity].
  destruct (ok r); [|reflexivity]. cbn [negb].
  destruct (text r) as [csvText|e]; [|reflexivity].
  destruct (parseCSVToJSON csvText); reflexivity.
Qed.

(** The console after a cycle: the exception of a failed cycle is logged,
    and nothing else is. *)
Lemma refresh_console (env : Env) (w : World) :
  console (refresh env w) =
  match fetched_data env with
  | Normal _ => console w
  | Throw err => console w ++ [(str "Error fetching menu:", err)]
  end.
Proof.
  unfold refresh, fetchMenuData, try_catch_finally, fetch_body, fetched_data.
  unfold mbind, mret, throw, await, call, setLoading, setError, setMenuItems,
    setCurrentDate, console_error, modify, cbind.
  cbn [state console].
  destruct (fetched env) as [r|e]; [|reflexivity].
  destruct (ok r); [|reflexivity]. cbn [negb].
  destruct (text r) as [csvText|e]; [|reflexivity].
  destruct (parseCSVToJSON csvText); reflexivity.
Qed.

Lemma fetched_data_success (csvText today localeDate : jsstring) :
  fetched_data (success csvText today localeDate) = parseCSVToJSON csvText.
Proof. reflexivity. Qed.

Lemma fetch_body_throws (env : Env) (w w' : World) (err : exn) :
  fetch_body env w = (Throw err, w') <-> fetched_data env = Throw err
    /\ w' = {| state := {| menuItems := menuItems (state w); loading := true;
                           error := None;
                           currentDate := currentDate (state w) |};
               console := console w |}.
Proof.
  unfold fetch_body, fetched_data.
  unfold mbind, mret, throw, await, call, setLoading, setError, setMenuItems,
    setCurrentDate, modify, cbind.
  cbn [state console menuItems loading error currentDate].
  destruct (fetched env) as [r|e].
  - destruct (ok r); cbn [negb].
    + destruct (text r) as [csvText|e].
      * destruct (parseCSVToJSON csvText).
        -- split; [discriminate | intros [? _]; discriminate].
        -- split; [intros E; injection E as <- <- | intros [E ->]];
             [split | injection E as <-]; reflexivity.
      * split; [intros E; injection E as <- <- | intros [E ->]];
          [split | injection E as <-]; reflexivity.
    + split; [intros E; injection E as <- <- | intros [E ->]];
        [split | injection E as <-]; reflexivity.
  - split; [intros E; injection E as <- <- | intros [E ->]];
      [split | injection E as <-]; reflexivity.
Qed.

Lemma App_failed (st : AppState) (rendered : Rendered) :
  App st = Normal rendered -> loading st = false ->
  truthy (error st) = true ->
  rendered = {| header_date := currentDate st;
                main := ErrorMessage (error st) |}.
Proof.
  unfold App. intros H Hloading Herror.
  destruct (groupByMealType (menuItems st)); [|discriminate].
  simpl in H. rewrite Hloading, Herror in H. simpl in H. now injection H.
Qed.

(** The filter keeps a record if and only if its [Date] is the string
    [today].  The kept records are what a cycle stores in [menuItems], and
    they are the records shown by the view whenever grouping returns one. *)
Lemma todaysMenu_exact (data : list MenuItem) (today : jsstring) :
  (forall item,
     In item (todaysMenu data today)
     <-> In item data /\ Date item = Some today)
  /\ (forall csvText localeDate w,
        parseCSVToJSON csvText = Normal data ->
        menuItems (state (refresh (success csvText today localeDate) w)) =
        todaysMenu data today)
  /\ (forall view item,
        menuView (todaysMenu data today) = Normal view ->
        (shown view item <-> In item data /\ Date item = Some today)).
Proof.
  split; [apply todaysMenu_In|]. split.
  - intros csvText localeDate w Hparse.
    now rewrite refresh_state, fetched_data_success, Hparse.
  - intros view item Hview. rewrite (@shown_iff _ _ item Hview).
    apply todaysMenu_In.
Qed.

Lemma fetch_body_failure (env : Env) (w : World) (err : exn) :
  fst (fetch_body env w) = Throw err <-> failure env err.
Proof.
  rewrite failure_fetched_data. split.
  - destruct (fetch_body env w) as [r w1] eqn:E. simpl. intros ->.
    now apply fetch_body_throws in E.
  - intros H.
    now rewrite (proj2 (fetch_body_throws env w _ err) (conj H eq_refl)).
Qed.

(** When the request is rejected, the response status is not a success,
    reading the body is rejected or the parser throws (these are the ways
    the [try] block throws), the cycle ends with [loading] false and
    [error] set to the one fixed message, whatever the exception is; the
    exception itself only goes to the console. *)
Lemma failed_cycle_reports_fixed_message (env : Env) (w : World)
  (err : exn) :
  failure env err \/ fst (fetch_body env w) = Throw err ->
  let w' := refresh env w in
  status (state w') = Failed (Some unable_to_load)
  /\ error (state w') = Some unable_to_load
  /\ loading (state w') = false
  /\ unable_to_load = str "Unable to load menu. Please try again later."
  /\ console w' = console w ++ [(str "Error fetching menu:", err)]
  /\ (forall rendered,
        App (state w') = Normal rendered ->
        main rendered = ErrorMessage (Some unable_to_load)).
Proof.
  intros Hfail w'.
  assert (Hdata : fetched_data env = Throw err).
  { apply failure_fetched_data.
    destruct Hfail as [H|H]; [exact H | now apply fetch_body_failure in H]. }
  assert (Hstate : state w' =
    {| menuItems := menuItems (state w); loading := false;
       error := Some unable_to_load; currentDate := currentDate (state w) |})
    by (unfold w'; now rewrite refresh_state, Hdata).
  rewrite Hstate. repeat split.
  - unfold w'. now rewrite refresh_console, Hdata.
  - intros rendered Happ. rewrite <- Hstate in Happ.
    apply App_failed in Happ; [| now rewrite Hstate ..].
    rewrite Happ, Hstate. reflexivity.
Qed.

(** A rejected request after an earlier successful cycle. *)
Lemma failed_cycle_rejected :
  let w := {| state := earlier_state; console := [] |} in
  let w' := refresh rejected_cycle w in
  status (state w') = Failed (Some unable_to_load)
  /\ error (state w') = Some unable_to_load
  /\ loading (state w') = false
  /\ unable_to_load = str "Unable to load menu. Please try again later."
  /\ console w' = console w ++ [(str "Error fetching menu:",
                                  Rejected (str "Failed to fetch"))]
  /\ (forall rendered,
        App (state w') = Normal rendered ->
        main rendered = ErrorMessage (Some unable_to_load)).
Proof.
  exact (@failed_cycle_reports_fixed_message rejected_cycle
           {| state := earlier_state; console := [] |}
           (Rejected (str "Failed to fetch"))
           (or_introl (transport_failure rejected_cycle eq_refl))).
Defined.

(** A cycle that runs from its call to its end without another one in
    between: when the request succeeds, the sheet parses and no record has
    today's date, it ends with an empty record set, [loading] false and
    [error] null; nothing is logged and the component renders "Menu not
    updated yet.". *)
Lemma empty_menu_uninterrupted (env : Env) (w : World) (response : Response)
  (csvText : jsstring) (data : list MenuItem) :
  fetched env = Normal response ->
  ok response = true ->
  text response = Normal csvText ->
  parseCSVToJSON csvText = Normal data ->
  todaysMenu data (today env) = [] ->
  let w' := refresh env w in
  state w' = {| menuItems := []; loading := false; error := None;
                currentDate := localeDate env |}
  /\ status (state w') = Ready
  /\ console w' = console w
  /\ menuView (menuItems (state w')) = Normal []
  /\ App (state w') = Normal {| header_date := localeDate env;
                                main := NotUpdatedMessage |}.
Proof.
  intros Hfetch Hok Htext Hparse Hnone w'.
  assert (Hdata : fetched_data env = Normal data).
  { unfold fetched_data. rewrite Hfetch. simpl. rewrite Hok. simpl.
    now rewrite Htext. }
  assert (Hstate : state w' =
    {| menuItems := []; loading := false; error := None;
       currentDate := localeDate env |})
    by (unfold w'; now rewrite refresh_state, Hdata, Hnone).
  split; [exact Hstate|]. rewrite Hstate. repeat split.
  unfold w'. now rewrite refresh_console, Hdata.
Qed.

(** The sample sheet fetched on a day it has no row for. *)
Lemma empty_menu_other_day_alone :
  let env := success sheet (str "2024-02-02") (str "Friday 2 February 2024") in
  let w' := refresh env {| state := initialState; console := [] |} in
  state w' = {| menuItems := []; loading := false; error := None;
                currentDate := localeDate env |}
  /\ status (state w') = Ready
  /\ console w' = []
  /\ menuView (menuItems (state w')) = Normal []
  /\ App (state w') = Normal {| header_date := localeDate env;
                                main := NotUpdatedMessage |}.
Proof.
  exact (@empty_menu_uninterrupted
           (success sheet (str "2024-02-02") (str "Friday 2 February 2024"))
           {| state := initialState; console := [] |}
           {| ok := true; text := Normal sheet |} sheet
           [ menu_item "2024-01-01" "Lunch" "Rice" "50";
             menu_item "2024-01-01" "Breakfast" "Idli" "30" ]
           eq_refl eq_refl eq_refl eq_refl eq_refl).
Defined.

(** C8.  The view after a cycle is a function of the fetched text and of
    [today] alone: it is the view of the pipeline on these two, whatever
    the state and the console before the cycle and whatever the date label;
    two cycles on the same text and the same day, run one after the other
    or from different states, end with the same records and the same
    view. *)
Theorem pipeline_deterministic (csvText day : jsstring)
  (label1 label2 : jsstring) (w1 w2 : World) :
  let s1 := state (refresh (success csvText day label1) w1) in
  let s2 := state (refresh (success csvText day label2) w2) in
  let s12 := state (refresh (success csvText day label2)
                      (refresh (success csvText day label1) w1)) in
  menuView (menuItems s1) = pipeline csvText day
  /\ menuItems s2 = menuItems s1
  /\ menuView (menuItems s2) = menuView (menuItems s1)
  /\ menuItems s12 = menuItems s1
  /\ menuView (menuItems s12) = menuView (menuItems s1)
  /\ (forall r1 r2,
        App s1 = Normal r1 -> App s2 = Normal r2 -> main r1 = main r2).
Proof.
  intros s1 s2 s12. unfold s1, s2, s12.
  rewrite !refresh_state, !fetched_data_success. unfold pipeline.
  destruct (parse_returns csvText) as (data & ->). cbn [menuItems cbind].
  repeat split. unfold App. cbn [menuItems loading error currentDate].
  intros r1 r2 H1 H2. cbn [today localeDate success] in H1, H2.
  destruct (groupByMealType (todaysMenu data day));
    cbn [cbind truthy] in H1, H2; [|discriminate].
  destruct (Nat.eqb _ _).
  - injection H1 as <-. now injection H2 as <-.
  - destruct (mapE _ _); cbn [cbind] in H1, H2; [|discriminate].
    injection H1 as <-. now injection H2 as <-.
Qed.

(** C9 (amended).  A cycle that fetched and parsed a sheet writes every
    cell: the state after it does not depend on the state before, nor on
    the cycles that ran earlier.  A cycle that failed writes [error] and
    [loading] only: the record set and the date label of the state before
    it are still there after it. *)
Theorem refresh_replaces_on_success (env : Env) (w : World) :
  (forall data,
     fetched_data env = Normal data ->
     state (refresh env w) =
       {| menuItems := todaysMenu data (today env); loading := false;
          error := None; currentDate := localeDate env |}
     /\ (forall w0, state (refresh env w0) = state (refresh env w))
     /\ (forall earlier,
          state (run (earlier ++ [env]) w) = state (refresh env w)))
  /\ (forall err,
        failure env err ->
        state (refresh env w) =
          {| menuItems := menuItems (state w); loading := false;
             error := Some unable_to_load;
             currentDate := currentDate (state w) |}
        /\ exposed (state (refresh env w)) = exposed (state w)).
Proof.
  split.
  - intros data Hdata. split; [|split].
    + now rewrite refresh_state, Hdata.
    + intros w0. now rewrite !refresh_state, Hdata.
    + intros earlier. unfold run. rewrite fold_left_app. simpl.
      now rewrite !refresh_state, Hdata.
  - intros err Hfail. apply failure_fetched_data in Hfail.
    rewrite refresh_state, Hfail. now split.
Qed.

(** C9 (as stated, refuted).  After a cycle whose request is rejected, the
    record and the date label of the earlier cycle are still in the state,
    the header still shows that date label, and the state differs from the
    one the same cycle leaves when started from the initial state. *)
Lemma failed_cycle_keeps_earlier_menu :
  let st := state (refresh rejected_cycle
                     {| state := earlier_state; console := [] |}) in
  let st0 := state (refresh rejected_cycle
                      {| state := initialState; console := [] |}) in
  status st = Failed (Some unable_to_load)
  /\ menuItems st = [menu_item "2024-01-01" "Lunch" "Rice" "50"]
  /\ currentDate st = str "Monday 1 January 2024"
  /\ App st = Normal {| header_date := str "Monday 1 January 2024";
                        main := ErrorMessage (Some unable_to_load) |}
  /\ exposed st <> exposed st0.
Proof.
  repeat split; try (vm_compute; reflexivity).
  vm_compute. discriminate.
Qed.

(** ** The sample sheets *)

(** The sheet whose rows all have four fields: one record per row, the
    padded fields of the second row stripped. *)
Lemma parse_clean_sheet :
  let header := str "Date,Meal_Type,Item_Name,Price" in
  let rows := [ str "2024-01-01,Lunch,Rice,50";
                str " 2024-01-01 , Breakfast ,Idli, 30" ] in
  exists data,
    (parseCSVToJSON clean_sheet = Normal data
     /\ data = List.map row_item rows
     /\ List.length data = List.length rows
     /\ forall i row, nth_error rows i = Some row ->
          exists item,
            nth_error data i = Some item
            /\ Date item = option_map trim (nth_error (split COMMA row) 0)
            /\ Meal_Type item = option_map trim (nth_error (split COMMA row) 1)
            /\ Item_Name item = option_map trim (nth_error (split COMMA row) 2)
            /\ Price item = option_map trim (nth_error (split COMMA row) 3)
            /\ field_of (nth_error (split COMMA row) 0) (Date item)
            /\ field_of (nth_error (split COMMA row) 1) (Meal_Type item)
            /\ field_of (nth_error (split COMMA row) 2) (Item_Name item)
            /\ field_of (nth_error (split COMMA row) 3) (Price item))
    /\ data = [ menu_item "2024-01-01" "Lunch" "Rice" "50";
                menu_item "2024-01-01" "Breakfast" "Idli" "30" ].
Proof.
  intros header rows.
  destruct (@parse_one_record_per_row clean_sheet header rows)
    as (data & Hparse & Hdata & Hrest).
  - reflexivity.
  - repeat constructor.
  - exists data. split; [now repeat split|].
    rewrite Hdata. vm_compute. reflexivity.
Defined.


(** The sheet of two rows for 2024-01-01 and one short row: the short row
    is dropped, the fields are trimmed, and the view lists Breakfast before
    Lunch. *)
Example sheet_view :
  parseCSVToJSON sheet =
    Normal [ menu_item "2024-01-01" "Lunch" "Rice" "50";
             menu_item "2024-01-01" "Breakfast" "Idli" "30" ]
  /\ pipeline sheet (str "2024-01-01") =
       Normal [ (str "Breakfast",
                 [menu_item "2024-01-01" "Breakfast" "Idli" "30"]);
                (str "Lunch",
                 [menu_item "2024-01-01" "Lunch" "Rice" "50"]) ]
  /\ pipeline sheet (str "2024-01-02") = Normal [].
Proof. repeat split; vm_compute; reflexivity. Qed.

(** A header of one column: the rows of one field become records whose
    other three fields are undefined, and an empty line between rows is a
    row of one empty field. *)
Example one_column_sheet :
  parseCSVToJSON (text_of_lines ["Date"; "2024-01-01"; ""; "a,b"]%string) =
    Normal [ {| Date := Some (str "2024-01-01"); Meal_Type := None;
                Item_Name := None; Price := None |};
             {| Date := Some []; Meal_Type := None;
                Item_Name := None; Price := None |} ].
Proof. vm_compute. reflexivity. Qed.

(** * Further properties *)

(** ** The parser: field counts *)

Lemma split_from_length (sep : code_unit) (s cur : jsstring) :
  List.length (split_from sep cur s) = S (count_occ N.eq_dec s sep).
Proof.
  revert cur. induction s as [|c s IH]; intros cur; simpl; [reflexivity|].
  destruct (N.eqb_spec c sep) as [E|E]; destruct (N.eq_dec c sep);
    try contradiction; simpl; now rewrite IH.
Qed.

Lemma fields_length (line : jsstring) :
  List.length (fields line) = S (commas line).
Proof. unfold fields. rewrite length_map. apply split_from_length. Qed.

Lemma well_formed_commas (header row : jsstring) :
  well_formed header row = Nat.eqb (commas row) (commas header).
Proof. unfold well_formed. now rewrite !fields_length. Qed.

(** X1.  A data row yields a record exactly when it has as many commas as
    the header line: the parser counts separators and does not interpret
    quotes, so the header matters only through its number of commas. *)
Theorem rows_kept_by_comma_count (csv header : jsstring)
  (rows : list jsstring) :
  lines_of csv = header :: rows ->
  parseCSVToJSON csv =
    Normal (List.map row_item
              (List.filter
                 (fun row => Nat.eqb (commas row) (commas header)) rows))
  /\ forall csv' header',
       lines_of csv' = header' :: rows -> commas header' = commas header ->
       parseCSVToJSON csv' = parseCSVToJSON csv.
Proof.
  intros Hlines. split.
  - rewrite (parse_lines _ Hlines). do 2 f_equal. apply filter_ext.
    intros row. apply well_formed_commas.
  - intros csv' header' Hlines' E.
    rewrite (parse_lines _ Hlines), (parse_lines _ Hlines'). do 2 f_equal.
    apply filter_ext. intros row. now rewrite !well_formed_commas, E.
Qed.

(** The sample sheet: the row of one comma is the one left out. *)
Lemma rows_kept_in_sheet :
  let header := str "Date,Meal_Type,Item_Name,Price" in
  let rows := [ str "2024-01-01,Lunch,Rice,50";
                str " 2024-01-01 , Breakfast ,Idli, 30";
                str "badrow,onlytwo" ] in
  parseCSVToJSON sheet =
    Normal (List.map row_item
              (List.filter
                 (fun row => Nat.eqb (commas row) (commas header)) rows))
  /\ forall csv' header',
       lines_of csv' = header' :: rows -> commas header' = commas header ->
       parseCSVToJSON csv' = parseCSVToJSON sheet.
Proof.
  intros header rows.
  apply (@rows_kept_by_comma_count sheet header rows). reflexivity.
Defined.

(** ** The parser: what a record holds *)








(** ** The parser: white space around lines and carriage returns *)

Lemma whitespace_no_comma (w : jsstring) :
  forallb isWhiteSpace w = true -> ~ In COMMA w.
Proof.
  intros H Hin. rewrite forallb_forall in H. specialize (H _ Hin).
  discriminate.
Qed.

Lemma split_from_prefix (sep : code_unit) (a b cur : jsstring) :
  ~ In sep a ->
  split_from sep cur (a ++ b) = split_from sep (rev a ++ cur) b.
Proof.
  revert cur. induction a as [|c a IH]; intros cur Ha; simpl; [reflexivity|].
  destruct (N.eqb_spec c sep) as [E|E].
  - exfalso. apply Ha. now left.
  - rewrite IH by (intros H; apply Ha; now right).
    now rewrite <- app_assoc.
Qed.

Lemma fields_from_after (after b cur : jsstring) :
  forallb isWhiteSpace after = true ->
  List.map trim (split_from COMMA cur (b ++ after)) =
  List.map trim (split_from COMMA cur b).
Proof.
  intros Hafter. revert cur. induction b as [|c b IH]; intros cur.
  - cbn [app]. rewrite <- (app_nil_r after).
    rewrite (@split_from_prefix COMMA after [] cur)
      by (now apply whitespace_no_comma).
    simpl. rewrite rev_app_distr, rev_involutive. f_equal.
    apply (trim_padding [] (rev cur) after); [reflexivity | assumption].
  - simpl. destruct (c =? COMMA)%N; simpl; now rewrite IH.
Qed.

Lemma fields_from_before (before b acc : jsstring) :
  forallb isWhiteSpace before = true ->
  List.map trim (split_from COMMA (acc ++ rev before) b) =
  List.map trim (split_from COMMA acc b).
Proof.
  intros Hbefore. revert acc.
  assert (Hpart : forall acc,
             trim (rev (acc ++ rev before)) = trim (rev acc)).
  { intros acc. rewrite rev_app_distr, rev_involutive.
    rewrite <- (app_nil_r (rev acc)) at 1.
    apply (trim_padding before (rev acc) []); [assumption | reflexivity]. }
  induction b as [|c b IH]; intros acc; simpl.
  - now rewrite Hpart.
  - destruct (c =? COMMA)%N; simpl.
    + now rewrite Hpart.
    + apply (IH (c :: acc)).
Qed.

(** White space before and after a line does not change its fields. *)
Lemma fields_padded (l l' : jsstring) : padded l l' -> fields l' = fields l.
Proof.
  intros (before & after & Hb & Ha & ->). unfold fields, split.
  rewrite split_from_prefix by (now apply whitespace_no_comma).
  rewrite app_nil_r. rewrite fields_from_after by assumption.
  apply (fields_from_before before l []). assumption.
Qed.

Lemma parse_padded (csv csv' : jsstring) :
  Forall2 padded (lines_of csv) (lines_of csv') ->
  parseCSVToJSON csv' = parseCSVToJSON csv.
Proof.
  destruct (lines_of_cons csv) as (header & rows & E).
  destruct (lines_of_cons csv') as (header' & rows' & E').
  rewrite E, E'. intros H.
  apply Forall2_cons_iff in H as [Hheader Hrows].
  rewrite (parse_lines _ E), (parse_lines _ E'). f_equal.
  apply fields_padded in Hheader. clear E E'.
  induction Hrows as [|row row' rows rows' Hrow _ IH]; [reflexivity|].
  apply fields_padded in Hrow. cbn [List.filter].
  assert (Hwf : well_formed header' row' = well_formed header row)
    by (unfold well_formed; now rewrite Hrow, Hheader).
  rewrite Hwf. destruct (well_formed header row); [|exact IH].
  cbn [List.map]. f_equal; [|exact IH]. unfold row_item. now rewrite Hrow.
Qed.

Lemma crlf_app (a b : jsstring) : crlf (a ++ b) = crlf a ++ crlf b.
Proof. apply flat_map_app. Qed.

Lemma crlf_whitespace (w : jsstring) :
  forallb isWhiteSpace w = true -> forallb isWhiteSpace (crlf w) = true.
Proof.
  induction w as [|c w IH]; simpl; [reflexivity|].
  intros H. apply andb_prop in H as [Hc Hw].
  destruct (c =? LF)%N; simpl; rewrite IH by assumption;
    [reflexivity | now rewrite Hc].
Qed.

Lemma crlf_other (c : code_unit) (s : jsstring) :
  isWhiteSpace c = false -> crlf (c :: s) = c :: crlf s.
Proof.
  intros H. unfold crlf. simpl. destruct (N.eqb_spec c LF) as [->|_].
  - discriminate.
  - reflexivity.
Qed.

Lemma trimStart_crlf (s : jsstring) : trimStart (crlf s) = crlf (trimStart s).
Proof.
  induction s as [|c s IH]; [reflexivity|].
  destruct (isWhiteSpace c) eqn:Hc.
  - simpl trimStart at 2. rewrite Hc, <- IH.
    unfold crlf at 1. simpl. destruct (c =? LF)%N; simpl.
    + reflexivity.
    + now rewrite Hc.
  - rewrite trimStart_fixed by assumption.
    rewrite crlf_other by assumption. now apply trimStart_fixed.
Qed.

Lemma trimEnd_crlf (s : jsstring) : trimEnd (crlf s) = crlf (trimEnd s).
Proof.
  destruct (trimEnd_suffix s) as (ws & E & Hws).
  rewrite E at 1. rewrite crlf_app.
  rewrite trimEnd_padding by (now apply crlf_whitespace).
  unfold trimEnd at 2 3.
  destruct (trimStart (rev s)) as [|c u] eqn:Hu; [reflexivity|].
  apply trimStart_head in Hu. simpl rev.
  rewrite crlf_app. unfold crlf at 2. simpl.
  destruct (N.eqb_spec c LF) as [->|_]; [discriminate|].
  now apply trimEnd_last.
Qed.

Lemma trim_crlf (s : jsstring) : trim (crlf s) = crlf (trim s).
Proof. unfold trim. now rewrite trimStart_crlf, trimEnd_crlf. Qed.

Lemma split_from_crlf (s cur : jsstring) :
  Forall2 padded (split_from LF cur s) (split_from LF cur (crlf s)).
Proof.
  assert (Hsame : forall l : jsstring, padded l l).
  { intros l. exists [], []. now rewrite app_nil_r. }
  revert cur. induction s as [|c s IH]; intros cur.
  - repeat constructor. apply Hsame.
  - unfold crlf. simpl. fold (crlf s).
    destruct (N.eqb_spec c LF) as [->|E]; simpl.
    + constructor; [|apply IH].
      exists [], [CR]. repeat split.
    + destruct (N.eqb_spec c LF); [contradiction|]. apply IH.
Qed.

(** X3.  Carriage returns before the line feeds do not change what the
    parser returns, nor does any other white space added at the start or
    the end of lines: a sheet with CR LF line ends parses to the records of
    the same sheet with LF line ends. *)
Theorem parse_ignores_line_padding (csv : jsstring) :
  parseCSVToJSON (crlf csv) = parseCSVToJSON csv
  /\ forall csv',
       Forall2 padded (lines_of csv) (lines_of csv') ->
       parseCSVToJSON csv' = parseCSVToJSON csv.
Proof.
  split.
  - apply parse_padded. unfold lines_of. rewrite trim_crlf.
    apply split_from_crlf.
  - intros csv'. apply parse_padded.
Qed.

(** ** Parsing then filtering *)

(** X4.  A record is on today's menu exactly when it is the record of a
    data row that has as many commas as the header and whose first field,
    once trimmed, is the string [today]: the date cell may carry spaces,
    and any other spelling of the date leaves the row out. *)
Theorem todays_rows (csv header : jsstring) (rows : list jsstring)
  (data : list MenuItem) (day : jsstring) (item : MenuItem) :
  lines_of csv = header :: rows ->
  parseCSVToJSON csv = Normal data ->
  (In item (todaysMenu data day)
   <-> exists row first,
         In row rows
         /\ commas row = commas header
         /\ nth_error (split COMMA row) 0 = Some first
         /\ trim first = day
         /\ item = row_item row).
Proof.
  intros Hlines Hparse.
  rewrite (parse_lines _ Hlines) in Hparse. injection Hparse as <-.
  rewrite todaysMenu_In, in_map_iff. split.
  - intros [(row & <- & Hrow) Hdate].
    apply filter_In in Hrow as [Hrow Hwf].
    rewrite well_formed_commas in Hwf. apply Nat.eqb_eq in Hwf.
    unfold row_item, item_of_values, fields in Hdate.
    cbn [Date] in Hdate. rewrite nth_error_map in Hdate.
    destruct (nth_error (split COMMA row) 0) as [first|] eqn:E;
      [|discriminate].
    injection Hdate as Hdate. now exists row, first.
  - intros (row & first & Hrow & Hcommas & Hfirst & Hday & ->). split.
    + exists row. split; [reflexivity|]. apply filter_In. split; [assumption|].
      rewrite well_formed_commas. now apply Nat.eqb_eq.
    + unfold row_item, item_of_values, fields. cbn [Date].
      rewrite nth_error_map, Hfirst. simpl. now rewrite Hday.
Qed.

(** The padded Breakfast row of the sample sheet is on the menu of its
    day. *)
Lemma todays_rows_in_sheet :
  In (menu_item "2024-01-01" "Breakfast" "Idli" "30")
    (todaysMenu [ menu_item "2024-01-01" "Lunch" "Rice" "50";
                  menu_item "2024-01-01" "Breakfast" "Idli" "30" ]
       (str "2024-01-01"))
  <-> exists row first,
        In row [ str "2024-01-01,Lunch,Rice,50";
                 str " 2024-01-01 , Breakfast ,Idli, 30";
                 str "badrow,onlytwo" ]
        /\ commas row = commas (str "Date,Meal_Type,Item_Name,Price")
        /\ nth_error (split COMMA row) 0 = Some first
        /\ trim first = str "2024-01-01"
        /\ menu_item "2024-01-01" "Breakfast" "Idli" "30" = row_item row.
Proof.
  apply (@todays_rows sheet (str "Date,Meal_Type,Item_Name,Price")).
  - reflexivity.
  - vm_compute. reflexivity.
Defined.

(** ** Grouping *)

Lemma inherited_In (k : jsstring) :
  Obj.inherited k = true <-> In k Obj.ObjectPrototype_names.
Proof. apply mem_In. Qed.

(** X5.  [groupByMealType] throws exactly when the category of some record
    is the name of a property of [Object.prototype]; what it throws is the
    [TypeError] of the call of [push]; in every other case it returns the
    partition of the records by category. *)
Theorem groupByMealType_throws_iff (items : list MenuItem) :
  ((exists err, groupByMealType items = Throw err)
   <-> exists item,
         In item items /\ In (category item) Obj.ObjectPrototype_names)
  /\ (forall err,
        groupByMealType items = Throw err ->
        err = TypeError "grouped[item.Meal_Type].push is not a function")
  /\ ((forall item,
         In item items -> ~ In (category item) Obj.ObjectPrototype_names) ->
      groupByMealType items = Normal (partition_by_category items)).
Proof.
  rewrite groupByMealType_result.
  destruct (existsb inherited_category items) eqn:E.
  - apply existsb_exists in E as (item & Hitem & Hinh).
    apply inherited_In in Hinh. repeat split.
    + intros _. now exists item.
    + intros _. now eexists.
    + intros err H. now injection H as <-.
    + intros H. now destruct (H item Hitem).
  - repeat split.
    + intros [err H]. discriminate.
    + intros (item & Hitem & Hinh). apply inherited_In in Hinh.
      assert (existsb inherited_category items = true); [|congruence].
      apply existsb_exists. now exists item.
    + intros err H. discriminate.
Qed.

(** ** The sort is stable *)

Section SortStable.

Variable A : Type.
Variable key : A -> Z.
Variable cmp : A -> A -> Z.
Hypothesis cmp_key : forall x y, cmp x y = (key x - key y)%Z.

Lemma insert_keeps_order (r : Z) (x : A) (l : list A) :
  List.filter (fun y => (key y =? r)%Z) (Arr.insert cmp x l) =
  List.filter (fun y => (key y =? r)%Z) (x :: l).
Proof.
  induction l as [|y l IH]; [reflexivity|].
  cbn [Arr.insert]. rewrite cmp_key.
  destruct (Z.leb_spec (key x - key y) 0) as [Hle|Hgt]; [reflexivity|].
  cbn [List.filter] in *. rewrite IH.
  destruct (Z.eqb_spec (key y) r), (Z.eqb_spec (key x) r);
    try reflexivity; lia.
Qed.

Lemma sort_keeps_order (r : Z) (l : list A) :
  List.filter (fun y => (key y =? r)%Z) (Arr.sort cmp l) =
  List.filter (fun y => (key y =? r)%Z) l.
Proof.
  induction l as [|x l IH]; [reflexivity|].
  cbn [Arr.sort fold_right]. fold (Arr.sort cmp l).
  rewrite insert_keeps_order. cbn [List.filter]. now rewrite IH.
Qed.

End SortStable.

(** X6.  For every object, [sortedMealTypes] is a rearrangement of its keys
    in ascending rank (Breakfast, Lunch, Snacks, Dinner, then every other
    name with rank 999), and the names of one rank keep the order they have
    among the keys.  The comparator is a consistent one: it is
    antisymmetric and transitive, so that the sorted order is determined.
    A name has a rank below 999 exactly when it is spelled as in the
    priority list. *)
Theorem sortedMealTypes_stable (groupedMenu : Obj.t (list MenuItem)) :
  Permutation (sortedMealTypes groupedMenu) (Obj.keys groupedMenu)
  /\ StronglySorted (fun a b => (rank a <= rank b)%Z)
       (sortedMealTypes groupedMenu)
  /\ (forall r,
        List.filter (fun k => (rank k =? r)%Z) (sortedMealTypes groupedMenu) =
        List.filter (fun k => (rank k =? r)%Z) (Obj.keys groupedMenu))
  /\ (forall a b c,
        compareMealTypes a b = (- compareMealTypes b a)%Z
        /\ ((compareMealTypes a b <= 0)%Z -> (compareMealTypes b c <= 0)%Z ->
            (compareMealTypes a c <= 0)%Z))
  /\ (forall k, (rank k < 999)%Z <-> In k mealTypeOrder).
Proof.
  unfold sortedMealTypes. split; [apply sort_perm|].
  split; [apply (@sort_sorted _ rank _ compareMealTypes_rank)|].
  split; [intros r;
          apply (@sort_keeps_order _ rank _ compareMealTypes_rank)|].
  split.
  - intros a b c. rewrite !compareMealTypes_rank. lia.
  - intros k.
    destruct (rank_position k) as (_ & _ & _ & _ & H999 & Hin).
    rewrite <- mem_In. destruct (mem k mealTypeOrder); simpl in H999.
    + apply Z.eqb_neq in H999. simpl in Hin. intuition lia.
    + apply Z.eqb_eq in H999. split; [lia | discriminate].
Qed.

(** ** The sections of the view *)

Lemma of_category_present (k : jsstring) (items : list MenuItem) :
  In k (List.map category items) -> of_category k items <> [].
Proof.
  intros H. apply in_map_iff in H as (item & <- & Hitem).
  assert (In item (of_category (category item) items)).
  { apply filter_In. split; [assumption | apply jsstring_eqb_refl]. }
  now destruct (of_category (category item) items).
Qed.

Lemma sections_cons (names : list jsstring) (x : MenuItem)
  (items : list MenuItem) :
  NoDup names -> In (category x) names ->
  Permutation (flat_map (fun k => of_category k (x :: items)) names)
    (x :: flat_map (fun k => of_category k items) names).
Proof.
  induction 1 as [|k names Hk Hnd IH]; [contradiction|].
  intros Hin. cbn [flat_map]. unfold of_category at 1. cbn [List.filter].
  fold (of_category k items).
  destruct (jsstring_eqb (category x) k) eqn:E.
  - apply jsstring_eqb_eq in E. subst k. simpl. apply perm_skip.
    apply Permutation_app_head.
    assert (Hsame : forall names,
               ~ In (category x) names ->
               flat_map (fun k => of_category k (x :: items)) names =
               flat_map (fun k => of_category k items) names).
    { clear. induction names as [|k names IH]; intros H; [reflexivity|].
      cbn [flat_map]. rewrite IH by (intros H'; apply H; now right).
      f_equal. unfold of_category. cbn [List.filter].
      destruct (jsstring_eqb (category x) k) eqn:E; [|reflexivity].
      apply jsstring_eqb_eq in E. exfalso. apply H. now left. }
    now rewrite Hsame.
  - apply jsstring_eqb_neq in E. destruct Hin as [Hin|Hin]; [congruence|].
    rewrite (IH Hin). symmetry. apply Permutation_middle.
Qed.

Lemma sections_perm (names : list jsstring) (items : list MenuItem) :
  NoDup names -> (forall x, In x items -> In (category x) names) ->
  Permutation (flat_map (fun k => of_category k items) names) items.
Proof.
  intros Hnd. induction items as [|x items IH]; intros Hall.
  - clear. induction names as [|k names IH]; [reflexivity | exact IH].
  - rewrite sections_cons by (auto; apply Hall; now left).
    apply perm_skip. apply IH. intros y Hy. apply Hall. now right.
Qed.

Lemma sortedMealTypes_NoDup (items : list MenuItem) :
  NoDup (sortedMealTypes (partition_by_category items)).
Proof.
  unfold sortedMealTypes.
  eapply Permutation_NoDup; [symmetry; apply sort_perm|].
  eapply Permutation_NoDup; [symmetry; apply keys_partition_perm|].
  apply seen_NoDup.
Qed.

(** X7.  When the view is built, its sections partition the records: the
    section names are distinct, no section is empty, a section holds the
    records of its category in their order among the records, and the
    sections together hold every record exactly once. *)
Theorem menuView_partitions (items : list MenuItem)
  (view : list (jsstring * list MenuItem)) :
  menuView items = Normal view ->
  NoDup (List.map fst view)
  /\ Forall (fun s => snd s <> [] /\ snd s = of_category (fst s) items) view
  /\ Permutation (List.concat (List.map snd view)) items
  /\ List.length view = List.length (seen (List.map category items)).
Proof.
  intros ->%menuView_sections.
  set (names := sortedMealTypes (partition_by_category items)).
  assert (Hin : forall k, In k names <-> In k (List.map category items))
    by apply sortedMealTypes_In.
  rewrite !map_map. cbn [fst snd]. rewrite map_id.
  split; [apply sortedMealTypes_NoDup|]. split; [|split].
  - apply Forall_forall. intros s Hs.
    apply in_map_iff in Hs as (k & <- & Hk). cbn [fst snd].
    split; [|reflexivity]. apply of_category_present. now apply Hin.
  - rewrite <- flat_map_concat_map. apply sections_perm.
    + apply sortedMealTypes_NoDup.
    + intros x Hx. apply Hin. now apply in_map.
  - rewrite length_map. apply Permutation_length. unfold names, sortedMealTypes.
    rewrite sort_perm. apply keys_partition_perm.
Qed.

(** The view of the sample sheet on its day. *)
Lemma menuView_partitions_sheet :
  let items := [ menu_item "2024-01-01" "Lunch" "Rice" "50";
                 menu_item "2024-01-01" "Breakfast" "Idli" "30" ] in
  let view := [ (str "Breakfast",
                 [menu_item "2024-01-01" "Breakfast" "Idli" "30"]);
                (str "Lunch", [menu_item "2024-01-01" "Lunch" "Rice" "50"]) ] in
  NoDup (List.map fst view)
  /\ Forall (fun s => snd s <> [] /\ snd s = of_category (fst s) items) view
  /\ Permutation (List.concat (List.map snd view)) items
  /\ List.length view = List.length (seen (List.map category items)).
Proof.
  intros items view. apply (@menuView_partitions items view).
  vm_compute. reflexivity.
Defined.

(** ** What is rendered *)

(** X8.  The component throws while rendering exactly when the category of
    some record in [menuItems] is an inherited name, whatever the loading
    flag and the error are; otherwise it renders the date label in the
    header and, in this priority, the loading message, the error message,
    the "not updated" message when there is no record, or one section per
    category in the sorted order. *)
Theorem App_renders (st : AppState) :
  App st =
  if existsb inherited_category (menuItems st)
  then Throw (TypeError "grouped[item.Meal_Type].push is not a function")
  else Normal
         {| header_date := currentDate st;
            main :=
              if loading st then LoadingMessage
              else if truthy (error st) then ErrorMessage (error st)
              else match menuItems st with
                   | [] => NotUpdatedMessage
                   | _ :: _ =>
                       MenuSections
                         (List.map
                            (fun k => (k, of_category k (menuItems st)))
                            (sortedMealTypes
                               (partition_by_category (menuItems st))))
                   end |}.
Proof.
  unfold App. rewrite groupByMealType_result.
  destruct (existsb inherited_category (menuItems st)); [reflexivity|].
  cbn [cbind]. destruct (loading st); [reflexivity|].
  destruct (truthy (error st)); [reflexivity|].
  destruct (menuItems st) as [|x items] eqn:E; [reflexivity|].
  cbn [List.length Nat.eqb]. rewrite sections_of_partition; [reflexivity|].
  apply Forall_forall. intros k. apply sortedMealTypes_In.
Qed.

(** ** Cycles one after the other *)

Lemma run_cons (env : Env) (cycles : list Env) (w : World) :
  run (env :: cycles) w = run cycles (refresh env w).
Proof. reflexivity. Qed.

Lemma run_app (cycles later : list Env) (w : World) :
  run (cycles ++ later) w = run later (run cycles w).
Proof. apply fold_left_app. Qed.

Lemma run_failed_exposed (failing : list Env) (w : World) :
  forallb failed failing = true ->
  exposed (state (run failing w)) = exposed (state w).
Proof.
  revert w. induction failing as [|env failing IH]; intros w H;
    [reflexivity|].
  apply andb_prop in H as [Henv Hrest]. rewrite run_cons, IH by assumption.
  rewrite refresh_state. unfold failed in Henv.
  now destruct (fetched_data env).
Qed.

(** X9.  Over any sequence of cycles run one after the other, the console
    receives one entry per failed cycle and none for the others; cycles
    that fail leave the record set and the date label of the last
    successful cycle in place; and after every cycle [loading] is false and
    [error] is the fixed message or null according to whether that cycle
    alone failed. *)
Theorem run_of_cycles (cycles : list Env) (w : World) :
  List.length (console (run cycles w)) =
    List.length (console w) + List.length (List.filter failed cycles)
  /\ (forall failing,
        forallb failed failing = true ->
        exposed (state (run (cycles ++ failing) w)) =
        exposed (state (run cycles w)))
  /\ (forall env,
        loading (state (run (cycles ++ [env]) w)) = false
        /\ error (state (run (cycles ++ [env]) w)) =
           if failed env then Some unable_to_load else None).
Proof.
  split; [|split].
  - revert w. induction cycles as [|env cycles IH]; intros w.
    + simpl. lia.
    + rewrite run_cons, IH, refresh_console. cbn [List.filter].
      unfold failed. destruct (fetched_data env); simpl.
      * reflexivity.
      * rewrite length_app. simpl. lia.
  - intros failing H. rewrite run_app. now apply run_failed_exposed.
  - intros env. rewrite run_app. cbn [run fold_left].
    rewrite refresh_state. unfold failed.
    now destruct (fetched_data env).
Qed.

(** ** Cycles that overlap *)

Lemma refresh_start_settle (env : Env) (w : World) :
  refresh env w = settle env (start w).
Proof.
  unfold refresh, settle, start, fetchMenuData, try_catch_finally, fetch_body,
    fetch_rest, fetch_start.
  unfold mbind, mret, throw, await, call, setLoading, setError, setMenuItems,
    setCurrentDate, console_error, modify.
  cbn [state console fst snd].
  destruct (fetched env) as [r|e]; [|reflexivity].
  destruct (ok r); [|reflexivity]. cbn [negb].
  destruct (text r) as [csvText|e]; [|reflexivity].
  destruct (parseCSVToJSON csvText); reflexivity.
Qed.

Lemma start_state (w : World) :
  state (start w) =
  {| menuItems := menuItems (state w); loading := true; error := None;
     currentDate := currentDate (state w) |}.
Proof. reflexivity. Qed.

Lemma settle_state (env : Env) (w : World) :
  state (settle env w) =
  match fetched_data env with
  | Normal data =>
      {| menuItems := todaysMenu data (today env); loading := false;
         error := error (state w); currentDate := localeDate env |}
  | Throw _ =>
      {| menuItems := menuItems (state w); loading := false;
         error := Some unable_to_load; currentDate := currentDate (state w) |}
  end.
Proof.
  unfold settle, try_catch_finally, fetch_rest, fetched_data.
  unfold mbind, mret, throw, await, call, setLoading, setError, setMenuItems,
    setCurrentDate, console_error, modify, cbind.
  cbn [state console].
  destruct (fetched env) as [r|e]; [|reflexivity].
  destruct (ok r); [|reflexivity]. cbn [negb].
  destruct (text r) as [csvText|e]; [|reflexivity].
  destruct (parseCSVToJSON csvText); reflexivity.
Qed.

Lemma interleave_snoc (events : list event) (e : event) (w : World) :
  interleave (events ++ [e]) w = step (interleave events w) e.
Proof. unfold interleave. now rewrite fold_left_app. Qed.

(** X10.  A cycle is its call followed by its end, and when cycles
    overlap the last one to end wins: after any interleaving of calls and
    ends, a cycle that ends successfully leaves its own records and date
    label in the state, also when it was called before the others; a call
    and a failing end leave the record set and the date label as they
    were. *)
Theorem last_settled_cycle_wins (events : list event) (w : World) :
  (forall env, refresh env w = interleave [Call; Settle env] w)
  /\ (forall env data,
        fetched_data env = Normal data ->
        exposed (state (interleave (events ++ [Settle env]) w)) =
        (todaysMenu data (today env), localeDate env))
  /\ (forall env,
        failed env = true ->
        exposed (state (interleave (events ++ [Settle env]) w)) =
        exposed (state (interleave events w)))
  /\ exposed (state (interleave (events ++ [Call]) w)) =
     exposed (state (interleave events w))
  /\ (forall stale fresh staleData,
        fetched_data stale = Normal staleData ->
        exposed (state (interleave (events ++ [Call; Call; Settle fresh;
                                                 Settle stale]) w)) =
        (todaysMenu staleData (today stale), localeDate stale)).
Proof.
  split; [intros env; apply refresh_start_settle|].
  split; [|split; [|split]].
  - intros env data H. rewrite interleave_snoc. cbn [step].
    now rewrite settle_state, H.
  - intros env H. rewrite interleave_snoc. cbn [step].
    rewrite settle_state. unfold failed in H.
    now destruct (fetched_data env).
  - now rewrite interleave_snoc.
  - intros stale fresh staleData H.
    change [Call; Call; Settle fresh; Settle stale]
      with ([Call; Call; Settle fresh] ++ [Settle stale]).
    rewrite app_assoc, interleave_snoc. cbn [step].
    now rewrite settle_state, H.
Qed.

(** X11.  The end of a successful cycle does not clear [error]: when two
    cycles overlap and the one called last fails before the one called
    first succeeds, the state holds the records of the successful cycle,
    [error] is still the fixed message and the component shows the error.
    And the end of either cycle sets [loading] to false while the other is
    still pending. *)
Theorem overlapping_failure_sticks (w : World) (first second : Env)
  (data : list MenuItem) :
  fetched_data first = Normal data ->
  failed second = true ->
  let w' := interleave [Call; Call; Settle second; Settle first] w in
  menuItems (state w') = todaysMenu data (today first)
  /\ error (state w') = Some unable_to_load
  /\ status (state w') = Failed (Some unable_to_load)
  /\ (forall env w0, fetched_data env = Normal data ->
        error (state (settle env w0)) = error (state w0))
  /\ loading (state (interleave [Call; Call; Settle second] w)) = false
  /\ loading (state (interleave [Call; Call; Settle first] w)) = false.
Proof.
  intros Hfirst Hsecond w'. unfold failed in Hsecond.
  assert (Hw' : state w' =
    {| menuItems := todaysMenu data (today first); loading := false;
       error := Some unable_to_load; currentDate := localeDate first |}).
  { unfold w', interleave. cbn [fold_left step].
    rewrite settle_state, Hfirst, settle_state.
    now destruct (fetched_data second). }
  rewrite Hw'. repeat split.
  - intros env w0 H. now rewrite settle_state, H.
  - unfold interleave. cbn [fold_left step]. rewrite settle_state.
    now destruct (fetched_data second).
  - unfold interleave. cbn [fold_left step].
    now rewrite settle_state, Hfirst.
Qed.

(** A cycle on the sample sheet overlapped by a rejected one. *)
Lemma overlapping_failure_on_sheet :
  let first := success sheet (str "2024-01-01") (str "Monday 1 January 2024") in
  let data := [ menu_item "2024-01-01" "Lunch" "Rice" "50";
                menu_item "2024-01-01" "Breakfast" "Idli" "30" ] in
  let w := {| state := initialState; console := [] |} in
  let w' := interleave [Call; Call; Settle rejected_cycle; Settle first] w in
  menuItems (state w') = todaysMenu data (today first)
  /\ error (state w') = Some unable_to_load
  /\ status (state w') = Failed (Some unable_to_load)
  /\ (forall env w0, fetched_data env = Normal data ->
        error (state (settle env w0)) = error (state w0))
  /\ loading (state (interleave [Call; Call; Settle rejected_cycle] w)) = false
  /\ loading (state (interleave [Call; Call; Settle first] w)) = false.
Proof.
  intros first data w.
  apply (@overlapping_failure_sticks w first rejected_cycle data).
  - vm_compute. reflexivity.
  - reflexivity.
Defined.

(** ** Icons and gradients *)

Lemma rank_unlisted (k : jsstring) : ~ In k mealTypeOrder -> rank k = 999%Z.
Proof.
  intros H. apply mem_not_In in H.
  destruct (rank_position k) as (_ & _ & _ & _ & H999 & _).
  rewrite H in H999. now apply Z.eqb_eq in H999.
Qed.

(** X12.  [getMealIcon] and [getMealGradient] switch on the same
    lower-cased name, whatever [toLowerCase] maps a name to: a name whose
    lower case is breakfast, lunch, snacks or dinner gets Sun, Utensils,
    Coffee or Moon with the gradient of that meal, every other name gets
    Sparkles and the default gradient, and the gradient is always the one
    that goes with the icon.  Two names with the same lower case get the
    same icon and the same gradient; but a name that is not spelled as in
    the priority list is ordered with rank 999, whatever its icon. *)
Theorem meal_styles (toLowerCase : jsstring -> jsstring) (k : jsstring) :
  getMealGradient toLowerCase k = gradient_of (getMealIcon toLowerCase k)
  /\ (toLowerCase k = str "breakfast" ->
      getMealIcon toLowerCase k = Sun
      /\ getMealGradient toLowerCase k = str "from-orange-50 to-amber-50")
  /\ (toLowerCase k = str "lunch" ->
      getMealIcon toLowerCase k = Utensils
      /\ getMealGradient toLowerCase k = str "from-red-50 to-orange-50")
  /\ (toLowerCase k = str "snacks" ->
      getMealIcon toLowerCase k = Coffee
      /\ getMealGradient toLowerCase k = str "from-amber-50 to-yellow-50")
  /\ (toLowerCase k = str "dinner" ->
      getMealIcon toLowerCase k = Moon
      /\ getMealGradient toLowerCase k = str "from-slate-50 to-gray-50")
  /\ (~ In (toLowerCase k)
          [str "breakfast"; str "lunch"; str "snacks"; str "dinner"] <->
      getMealIcon toLowerCase k = Sparkles)
  /\ (getMealIcon toLowerCase k = Sparkles ->
      getMealGradient toLowerCase k = str "from-pink-50 to-rose-50")
  /\ (forall listed,
        toLowerCase k = toLowerCase listed ->
        getMealIcon toLowerCase k = getMealIcon toLowerCase listed
        /\ getMealGradient toLowerCase k = getMealGradient toLowerCase listed)
  /\ (~ In k mealTypeOrder -> rank k = 999%Z).
Proof.
  assert (Hgradient : getMealGradient toLowerCase k =
                      gradient_of (getMealIcon toLowerCase k)).
  { unfold getMealGradient, getMealIcon.
    repeat match goal with
           | |- context [jsstring_eqb ?a ?b] => destruct (jsstring_eqb a b)
           end; reflexivity. }
  split; [exact Hgradient|].
  repeat split.
  - unfold getMealIcon. rewrite H. reflexivity.
  - unfold getMealGradient. rewrite H. reflexivity.
  - unfold getMealIcon. rewrite H. reflexivity.
  - unfold getMealGradient. rewrite H. reflexivity.
  - unfold getMealIcon. rewrite H. reflexivity.
  - unfold getMealGradient. rewrite H. reflexivity.
  - unfold getMealIcon. rewrite H. reflexivity.
  - unfold getMealGradient. rewrite H. reflexivity.
  - unfold getMealIcon. cbn [In]. intros H.
    destruct (jsstring_eqb (toLowerCase k) (str "breakfast")) eqn:E1;
      [apply jsstring_eqb_eq in E1; exfalso; apply H; intuition congruence|].
    destruct (jsstring_eqb (toLowerCase k) (str "lunch")) eqn:E2;
      [apply jsstring_eqb_eq in E2; exfalso; apply H; intuition congruence|].
    destruct (jsstring_eqb (toLowerCase k) (str "snacks")) eqn:E3;
      [apply jsstring_eqb_eq in E3; exfalso; apply H; intuition congruence|].
    destruct (jsstring_eqb (toLowerCase k) (str "dinner")) eqn:E4;
      [apply jsstring_eqb_eq in E4; exfalso; apply H; intuition congruence|].
    reflexivity.
  - unfold getMealIcon. cbn [In]. intros H.
    destruct (jsstring_eqb (toLowerCase k) (str "breakfast")) eqn:E1;
      [discriminate|].
    destruct (jsstring_eqb (toLowerCase k) (str "lunch")) eqn:E2;
      [discriminate|].
    destruct (jsstring_eqb (toLowerCase k) (str "snacks")) eqn:E3;
      [discriminate|].
    destruct (jsstring_eqb (toLowerCase k) (str "dinner")) eqn:E4;
      [discriminate|].
    apply jsstring_eqb_neq in E1, E2, E3, E4.
    intros [E|[E|[E|[E|[]]]]]; congruence.
  - intros H. rewrite Hgradient, H. reflexivity.
  - unfold getMealIcon. now rewrite H.
  - unfold getMealGradient. now rewrite H.
  - apply rank_unlisted.
Qed.

(** * Exceptions of grouping and ends of overlapping cycles *)

(** C2.  Among records of two days, the filter keeps the two records dated
    2024-01-01.  One of them has the category "constructor", so grouping
    throws and no view is built: the records of today, though kept by the
    filter, are shown by no view, and the component throws while
    rendering them. *)
Theorem todays_records_without_view :
  let day := str "2024-01-01" in
  todaysMenu two_days day =
    [menu_item "2024-01-01" "Lunch" "Rice" "50"; constructor_item]
  /\ (forall item, In item (todaysMenu two_days day) -> Date item = Some day)
  /\ menuView (todaysMenu two_days day) =
       Throw (TypeError "grouped[item.Meal_Type].push is not a function")
  /\ ~ (exists view, menuView (todaysMenu two_days day) = Normal view)
  /\ App {| menuItems := todaysMenu two_days day; loading := false;
            error := None; currentDate := [] |} =
       Throw (TypeError "grouped[item.Meal_Type].push is not a function").
Proof.
  intros day.
  assert (Hview : menuView (todaysMenu two_days day) =
            Throw (TypeError "grouped[item.Meal_Type].push is not a function"))
    by (vm_compute; reflexivity).
  split; [vm_compute; reflexivity|]. split; [|split; [exact Hview | split]].
  - intros item Hitem. now apply todaysMenu_In in Hitem.
  - intros [view H]. rewrite Hview in H. discriminate.
  - vm_compute. reflexivity.
Qed.

(** C5.  A cycle fetches and parses a sheet whose only row, dated today,
    has the category "constructor".  The cycle ends with [error] null and
    nothing logged, in the [Ready] status; grouping then throws while the
    component renders, outside the [try] block of the cycle: the exception
    of this stage is not caught and no error message is set. *)
Theorem grouping_exception_not_caught :
  let w' := refresh constructor_cycle
              {| state := initialState; console := [] |} in
  fetched_data constructor_cycle = Normal [constructor_item]
  /\ menuItems (state w') = [constructor_item]
  /\ error (state w') = None
  /\ status (state w') = Ready
  /\ console w' = []
  /\ groupByMealType (menuItems (state w')) =
       Throw (TypeError "grouped[item.Meal_Type].push is not a function")
  /\ App (state w') =
       Throw (TypeError "grouped[item.Meal_Type].push is not a function").
Proof. repeat split; vm_compute; reflexivity. Qed.





